(** * RecordToDiskPlugin: the streaming PCM-to-WAV writer

    A shallow embedding of the class [RecordToDiskPlugin]
    (spaces/plugins/RecordToDiskPlugin.ts) together with the part of Node's
    [Buffer], [fs] and [fs.WriteStream] the class relies on, and the
    properties of the writer stated over it.

    Conventions.
    - A byte is a [Byte.byte]; a [Buffer] and the contents of the file are
      [list byte].
    - The integer fields of a frame and the byte counter are [Z].  A number
      the code computes with [/] is an exact rational ([Q]): the products it
      forms are exact in double precision whenever they are small enough to
      pass the range check of the write that consumes them.
    - A method of the class is a function of the state-and-exception monad
      [M].  What a method assigned before it threw stays assigned, as with
      mutation of [this].
    - The class writes to one file through one descriptor in two ways:
      [fs.writeSync] with an explicit position, which takes effect during the
      call, and [outStream.write], which only queues the chunk; the queued
      chunk reaches the file later, when the event loop gets to it.  The
      model keeps the queue in the state and has an event, [IoComplete], for
      the moment a queued operation takes effect.
    - [console.log] is left out. *)

From Stdlib Require Import List ZArith QArith Qround Lia Bool.
From Stdlib Require Import Strings.Byte.
From Stdlib Require Strings.String.
Import ListNotations String.StringSyntax.

Bind Scope string_scope with String.string.

Local Open Scope Z_scope.

(** ** Exceptions and results *)

(** What a call can throw: Node's [ERR_OUT_OF_RANGE] (a [RangeError], with the
    name of the offending argument), the [EBADF] system error of a write on a
    closed descriptor, and whatever value the user's callback throws. *)
Inductive Exn : Type :=
  | ERR_OUT_OF_RANGE (arg : String.string)
  | EBADF
  | Thrown (what : String.string).

Inductive Result (A : Type) : Type :=
  | Ok (a : A)
  | Throw (e : Exn).
Arguments Ok {A} a.
Arguments Throw {A} e.

Definition rbind {A B} (r : Result A) (k : A -> Result B) : Result B :=
  match r with
  | Ok a => k a
  | Throw e => Throw e
  end.

Declare Scope result_scope.
Delimit Scope result_scope with result.
Notation "x <- e ;; k" := (rbind e (fun x => k))
  (at level 61, e at next level, right associativity) : result_scope.

(** ** Little-endian integers *)

Definition byte_of_Z (z : Z) : byte :=
  match Byte.of_N (Z.to_N (z mod 256)) with
  | Some b => b
  | None => x00
  end.

Definition Z_of_byte (b : byte) : Z := Z.of_N (Byte.to_N b).

(** The [n] low-order bytes of [v], least significant first. *)
Fixpoint le_bytes (n : nat) (v : Z) : list byte :=
  match n with
  | O => []
  | S k => byte_of_Z v :: le_bytes k (v / 256)
  end.

(** The unsigned integer a little-endian byte sequence denotes. *)
Fixpoint le_value (bs : list byte) : Z :=
  match bs with
  | [] => 0
  | b :: rest => Z_of_byte b + 256 * le_value rest
  end.

(** The unsigned little-endian field of [size] bytes at [offset] of [bs]. *)
Definition field (size offset : nat) (bs : list byte) : Z :=
  le_value (firstn size (skipn offset bs)).

(** The [size] bytes at [offset] of [bs]. *)
Definition slice (offset size : nat) (bs : list byte) : list byte :=
  firstn size (skipn offset bs).

(** ** Node's Buffer *)

Module Buffer.

Definition t := list byte.

(** [Buffer.alloc(size, fill)]. *)
Definition alloc (size : nat) (fill : byte) : t := repeat fill size.

(** [Buffer.from(arrayBuffer)]: a view of the whole [ArrayBuffer]. *)
Definition from (arrayBuffer : list byte) : t := arrayBuffer.

(** Overwrite [buf] from [offset] with [bs]; the caller has checked that
    [bs] fits. *)
Definition blit (bs : list byte) (offset : nat) (buf : t) : t :=
  firstn offset buf ++ bs ++ skipn (offset + length bs) buf.

(** [buf.write(string, offset)]: the string's bytes, as many as fit, from
    [offset]; an offset past the end of the buffer is a [RangeError]. *)
Definition write (s : String.string) (offset : nat) (buf : t) : Result t :=
  if (length buf <? offset)%nat then Throw (ERR_OUT_OF_RANGE "offset")
  else Ok (blit (firstn (length buf - offset) (String.list_byte_of_string s)) offset buf).

(** [checkInt] of Node's buffer module followed by the byte stores of
    [writeU_Int16LE] / [writeU_Int32LE]: the value must lie in
    [0, 2^(8 size) - 1] (it need not be an integer), the field must lie in
    the buffer, and the bytes stored are those of the value truncated to an
    integer. *)
Definition writeUIntLE (size : nat) (value : Q) (offset : nat) (buf : t)
  : Result t :=
  if negb (Qle_bool value (inject_Z (2 ^ (8 * Z.of_nat size) - 1)))
     || negb (Qle_bool 0 value)
  then Throw (ERR_OUT_OF_RANGE "value")
  else if (length buf <? offset + size)%nat then Throw (ERR_OUT_OF_RANGE "offset")
  else Ok (blit (le_bytes size (Qfloor value)) offset buf).

Definition writeUInt16LE := writeUIntLE 2.
Definition writeUInt32LE := writeUIntLE 4.

End Buffer.

(** ** The file and the write stream

    [fs.openSync(outputPath, 'w')] yields a descriptor on an empty file (the
    flag 'w' creates or truncates, it does not append); the class keeps it
    in [fileDescriptor] and hands the same descriptor to
    [fs.createWriteStream('', { fd })].  The descriptor has one file offset,
    shared by everything that writes through it; it starts at 0. *)

Record File : Type := mkFile {
  contents : list byte;   (* the bytes on disk *)
  position : nat;         (* the descriptor's file offset *)
  isOpen : bool           (* the descriptor has not been closed *)
}.

(** Bytes [bs] stored at absolute offset [pos]; a gap past the end of the file
    reads as zeros. *)
Definition store (bs : list byte) (pos : nat) (old : list byte) : list byte :=
  firstn pos old ++ repeat x00 (pos - length old) ++ bs
    ++ skipn (pos + length bs) old.

(** A write at an explicit position, pwrite(2): the bytes go to [pos] and
    the descriptor's offset is left where it was. *)
Definition pwrite (bs : list byte) (pos : nat) (f : File) : File :=
  mkFile (store bs pos (contents f)) (position f) (isOpen f).

(** A write at the descriptor's offset, write(2): the bytes go to
    [position f] and the offset advances past them. *)
Definition write (bs : list byte) (f : File) : File :=
  mkFile (store bs (position f) (contents f)) (position f + length bs) (isOpen f).

Definition close (f : File) : File :=
  mkFile (contents f) (position f) false.

(** The [fs.WriteStream].  [pending] holds, oldest first, the chunks accepted
    by [write()] whose bytes have not reached the file yet.  (It is not the
    stream's own buffer count, which only drops when the completion callback
    of a write has run, after the bytes are in the file.) *)
Record WriteStream : Type := mkWriteStream {
  pending : list (list byte);
  ending : bool;          (* end() has been called *)
  errored : bool          (* the stream has reported an error *)
}.

(** ** Frames and the plugin's state *)

Record Int16Array : Type := mkInt16Array {
  buffer : list byte;     (* the underlying ArrayBuffer *)
  byteOffset : nat;
  byteLength : nat
}.

(** Modelled from the spec: [AudioDataWithUser] is declared in ../types, which
    is not part of the sources at hand.  Section 6 of the specification gives
    its fields: the three format numbers (unsigned integers), the samples and
    an optional source identifier; [numberOfFrames] is named by the comment
    in [onAudioData]. *)
Record AudioDataWithUser : Type := mkAudioData {
  bitsPerSample : Z;
  sampleRate : Z;
  channelCount : Z;
  numberOfFrames : Z;
  samples : Int16Array;
  userId : option String.string
}.

(** [type AudioCallback = (data: Int16Array, userId?: string) => void]: the
    callback returns or throws. *)
Definition AudioCallback : Type :=
  Int16Array -> option String.string -> Result unit.

Record RecordToDiskPlugin : Type := mkPlugin {
  fileDescriptor : File;
  outStream : WriteStream;
  onAudioCallback : option AudioCallback;
  headerWritten : bool;
  totalDataBytes : Z;
  wavSampleRate : Z;
  wavBitsPerSample : Z;
  wavNumChannels : Z
}.

Definition set_fileDescriptor (f : File -> File) (this : RecordToDiskPlugin) :=
  mkPlugin (f (fileDescriptor this)) (outStream this) (onAudioCallback this)
    (headerWritten this) (totalDataBytes this)
    (wavSampleRate this) (wavBitsPerSample this) (wavNumChannels this).

Definition set_outStream (f : WriteStream -> WriteStream) (this : RecordToDiskPlugin) :=
  mkPlugin (fileDescriptor this) (f (outStream this)) (onAudioCallback this)
    (headerWritten this) (totalDataBytes this)
    (wavSampleRate this) (wavBitsPerSample this) (wavNumChannels this).

Definition set_headerWritten (v : bool) (this : RecordToDiskPlugin) :=
  mkPlugin (fileDescriptor this) (outStream this) (onAudioCallback this)
    v (totalDataBytes this)
    (wavSampleRate this) (wavBitsPerSample this) (wavNumChannels this).

Definition set_totalDataBytes (v : Z) (this : RecordToDiskPlugin) :=
  mkPlugin (fileDescriptor this) (outStream this) (onAudioCallback this)
    (headerWritten this) v
    (wavSampleRate this) (wavBitsPerSample this) (wavNumChannels this).

Definition set_wavSampleRate (v : Z) (this : RecordToDiskPlugin) :=
  mkPlugin (fileDescriptor this) (outStream this) (onAudioCallback this)
    (headerWritten this) (totalDataBytes this)
    v (wavBitsPerSample this) (wavNumChannels this).

Definition set_wavBitsPerSample (v : Z) (this : RecordToDiskPlugin) :=
  mkPlugin (fileDescriptor this) (outStream this) (onAudioCallback this)
    (headerWritten this) (totalDataBytes this)
    (wavSampleRate this) v (wavNumChannels this).

Definition set_wavNumChannels (v : Z) (this : RecordToDiskPlugin) :=
  mkPlugin (fileDescriptor this) (outStream this) (onAudioCallback this)
    (headerWritten this) (totalDataBytes this)
    (wavSampleRate this) (wavBitsPerSample this) v.

(** ** The monad of the methods *)

Definition M (A : Type) : Type :=
  RecordToDiskPlugin -> Result A * RecordToDiskPlugin.

Definition ret {A} (a : A) : M A := fun this => (Ok a, this).

Definition bind {A B} (m : M A) (k : A -> M B) : M B :=
  fun this =>
    match m this with
    | (Ok a, this') => k a this'
    | (Throw e, this') => (Throw e, this')
    end.

Definition throw {A} (e : Exn) : M A := fun this => (Throw e, this).
Definition get : M RecordToDiskPlugin := fun this => (Ok this, this).
Definition modify (f : RecordToDiskPlugin -> RecordToDiskPlugin) : M unit :=
  fun this => (Ok tt, f this).
Definition lift {A} (r : Result A) : M A := fun this => (r, this).

Declare Scope method_scope.
Delimit Scope method_scope with method.
Notation "x <- e ;; k" := (bind e (fun x => k))
  (at level 61, e at next level, right associativity) : method_scope.
Notation "e ;; k" := (bind e (fun _ => k))
  (at level 61, right associativity) : method_scope.

(** ** Node's fs and stream calls, on the plugin's descriptor and stream *)

(** [fs.writeSync(this.fileDescriptor, buffer, offset, length, position)].
    Both calls in the class pass a number as [position]; Node then writes
    "at position bytes from the beginning of the file" with pwrite(2), and
    only writes "at the current position" when [position] is not a number.
    Node checks the slice against the buffer first; the system call fails
    with EBADF on a closed descriptor.  Device failures (a full disk, an I/O
    error) are outside the model. *)
Definition fs_writeSync (buf : Buffer.t) (offset len position : nat) : M nat :=
  (this <- get;;
   if (length buf <? offset + len)%nat then throw (ERR_OUT_OF_RANGE "length")
   else if negb (isOpen (fileDescriptor this)) then throw EBADF
   else modify (set_fileDescriptor (pwrite (firstn len (skipn offset buf)) position));;
        ret len)%method.

(** [this.outStream.write(chunk)].  On a stream that has not been ended the
    chunk is queued.  After [end()] the chunk is refused and [write()]
    returns without throwing; the chunk never reaches the file.  If the
    stream has already finished and closed its descriptor ([closed]), the
    refusal leaves no trace: no error is recorded, none is reported.
    Otherwise the refusal (ERR_STREAM_WRITE_AFTER_END) destroys the stream:
    the error is recorded and what is still queued is dropped.  The chunk is
    a view of the caller's ArrayBuffer; the model takes the bytes it holds
    at the call. *)
Definition stream_write (chunk : Buffer.t) (closed : bool) (s : WriteStream)
  : WriteStream :=
  if ending s then
    if closed then s else mkWriteStream [] true true
  else mkWriteStream (pending s ++ [chunk]) false (errored s).

Definition outStream_write (chunk : Buffer.t) : M unit :=
  (this <- get;;
   modify (set_outStream
             (stream_write chunk (negb (isOpen (fileDescriptor this))))))%method.

(** [this.outStream.end(callback)]: no more writes; once the queue is empty
    the stream closes the descriptor.  A repeated [end()] changes nothing. *)
Definition stream_end (s : WriteStream) : WriteStream :=
  mkWriteStream (pending s) true (errored s).

(** One piece of the stream's asynchronous work taking effect on the file, at
    some moment after the call that queued it; the model places it between
    two calls into the plugin.  The stream was created without a [start]
    option, so it passes no position to [fs.write]: the oldest pending chunk
    is written at the descriptor's offset.  When nothing is pending and the
    stream has been ended, the stream closes the descriptor.  (A stream
    destroyed by a refused write has nothing pending, see [stream_write].) *)
Definition ioComplete (this : RecordToDiskPlugin) : RecordToDiskPlugin :=
  match pending (outStream this) with
  | chunk :: rest =>
      if isOpen (fileDescriptor this) then
        set_outStream (fun s => mkWriteStream rest (ending s) (errored s))
          (set_fileDescriptor (write chunk) this)
      else
        set_outStream (fun s => mkWriteStream rest (ending s) true) this
  | [] =>
      if ending (outStream this) then set_fileDescriptor close this else this
  end.

(** ** The class *)

(** [constructor(outputPath, onAudioCallback)]: the file is created or
    truncated, nothing is written. *)
Definition constructor (outputPath : String.string)
    (onAudioCallback : option AudioCallback) : RecordToDiskPlugin :=
  mkPlugin (mkFile [] 0 true) (mkWriteStream [] false false) onAudioCallback
    false 0 0 0 0.

(** The first part of [writeWavHeaderPlaceholder] (lines 81-110): the 44-byte
    buffer it builds from the three format fields. *)
Definition wavHeader (wavNumChannels wavSampleRate wavBitsPerSample : Z)
  : Result Buffer.t :=
  (let header := Buffer.alloc 44 x00 in
   header <- Buffer.write "RIFF" 0 header;;
   header <- Buffer.write "WAVE" 8 header;;
   header <- Buffer.write "fmt " 12 header;;
   header <- Buffer.writeUInt32LE 16 16 header;;
   header <- Buffer.writeUInt16LE 1 20 header;;
   header <- Buffer.writeUInt16LE (inject_Z wavNumChannels) 22 header;;
   header <- Buffer.writeUInt32LE (inject_Z wavSampleRate) 24 header;;
   let byteRate :=
     (inject_Z wavSampleRate * inject_Z wavNumChannels
      * (inject_Z wavBitsPerSample / 8))%Q in
   header <- Buffer.writeUInt32LE byteRate 28 header;;
   let blockAlign := (inject_Z wavNumChannels * (inject_Z wavBitsPerSample / 8))%Q in
   header <- Buffer.writeUInt16LE blockAlign 32 header;;
   header <- Buffer.writeUInt16LE (inject_Z wavBitsPerSample) 34 header;;
   header <- Buffer.write "data" 36 header;;
   Ok header)%result.

(** The method itself: build the buffer, then [fs.writeSync] it at
    position 0 (line 113). *)
Definition writeWavHeaderPlaceholder : M unit :=
  (this <- get;;
   header <- lift (wavHeader (wavNumChannels this) (wavSampleRate this)
                     (wavBitsPerSample this));;
   _ <- fs_writeSync header 0 44 0;;
   ret tt)%method.

Definition updateWavHeaderSizes : M unit :=
  (this <- get;;
   let fileSizeMinus8 := 36 + totalDataBytes this in
   let dataSize := totalDataBytes this in
   let buf := Buffer.alloc 4 x00 in
   buf <- lift (Buffer.writeUInt32LE (inject_Z fileSizeMinus8) 0 buf);;
   _ <- fs_writeSync buf 0 4 4;;
   buf <- lift (Buffer.writeUInt32LE (inject_Z dataSize) 0 buf);;
   _ <- fs_writeSync buf 0 4 40;;
   ret tt)%method.

Definition onAudioData (data : AudioDataWithUser) : M unit :=
  (this <- get;;
   (if negb (headerWritten this) then
      modify (set_wavSampleRate (sampleRate data));;
      modify (set_wavBitsPerSample (bitsPerSample data));;
      modify (set_wavNumChannels (channelCount data));;
      writeWavHeaderPlaceholder;;
      modify (set_headerWritten true)
    else ret tt);;
   let pcmBuf := Buffer.from (buffer (samples data)) in
   outStream_write pcmBuf;;
   this <- get;;
   modify (set_totalDataBytes (totalDataBytes this + Z.of_nat (length pcmBuf)));;
   this <- get;;
   match onAudioCallback this with
   | Some callback => lift (callback (samples data) (userId data))
   | None => ret tt
   end)%method.

Definition cleanup : M unit :=
  (this <- get;;
   (if headerWritten this && (0 <? totalDataBytes this) then updateWavHeaderSizes
    else ret tt);;
   modify (set_outStream stream_end))%method.

(** ** Runs of the writer *)

(** What happens to a writer: a call of one of its two methods, or one
    completion of asynchronous stream work in between. *)
Inductive Event : Type :=
  | Ingest (data : AudioDataWithUser)
  | Finalize
  | IoComplete.

Definition step (e : Event) (this : RecordToDiskPlugin)
  : Result unit * RecordToDiskPlugin :=
  match e with
  | Ingest data => onAudioData data this
  | Finalize => cleanup this
  | IoComplete => (Ok tt, ioComplete this)
  end.

(** The state after a sequence of events; a caller that survives an exception
    goes on with the state the exception left. *)
Fixpoint run (events : list Event) (this : RecordToDiskPlugin) : RecordToDiskPlugin :=
  match events with
  | [] => this
  | e :: rest => run rest (snd (step e this))
  end.

(** The states a writer built with callback [cb] can be in. *)
Inductive reachable (cb : option AudioCallback) : RecordToDiskPlugin -> Prop :=
  | reachable_new : forall outputPath, reachable cb (constructor outputPath cb)
  | reachable_step : forall this e,
      reachable cb this -> reachable cb (snd (step e this)).

(** The event loop run dry: every pending chunk written, then the descriptor
    closed if the stream was ended. *)
Definition settle (this : RecordToDiskPlugin) : RecordToDiskPlugin :=
  run (repeat IoComplete (S (length (pending (outStream this))))) this.

(** ** Notions used in the statements *)

(** The bytes [onAudioData] hands to the stream for a frame. *)
Definition payload (data : AudioDataWithUser) : list byte :=
  Buffer.from (buffer (samples data)).

(** The sum of the payload lengths of a sequence of frames. *)
Fixpoint payloadBytes (frames : list AudioDataWithUser) : Z :=
  match frames with
  | [] => 0
  | data :: rest => Z.of_nat (length (payload data)) + payloadBytes rest
  end.

(** The frames ingested by a sequence of events, in call order. *)
Fixpoint ingested (events : list Event) : list AudioDataWithUser :=
  match events with
  | [] => []
  | Ingest data :: rest => data :: ingested rest
  | _ :: rest => ingested rest
  end.

(** Events that happen while the writer is being fed: ingest calls and
    completions of stream work, no finalize. *)
Definition feeding (e : Event) : bool :=
  match e with
  | Finalize => false
  | _ => true
  end.

(** [v] is an unsigned integer of [size] bytes. *)
Definition fitsU (size : nat) (v : Z) : bool :=
  (0 <=? v) && (v <=? 2 ^ (8 * Z.of_nat size) - 1).

(** The formats whose header can be built: every field of the header passes
    the range check of the write that stores it. *)
Definition header_ok (channels rate bits : Z) : bool :=
  fitsU 2 channels && fitsU 4 rate
  && ((0 <=? rate * channels * bits) && (rate * channels * bits <=? 8 * (2 ^ 32 - 1)))
  && ((0 <=? channels * bits) && (channels * bits <=? 8 * (2 ^ 16 - 1)))
  && fitsU 2 bits.

Definition frame_ok (data : AudioDataWithUser) : bool :=
  header_ok (channelCount data) (sampleRate data) (bitsPerSample data).

(** The documented layout of the header, field by field. *)
Definition wavLayout (channels rate bits : Z) : list byte :=
  String.list_byte_of_string "RIFF"    (*  0: ChunkID *)
  ++ le_bytes 4 0                      (*  4: ChunkSize, placeholder *)
  ++ String.list_byte_of_string "WAVE" (*  8: Format *)
  ++ String.list_byte_of_string "fmt " (* 12: Subchunk1ID *)
  ++ le_bytes 4 16                     (* 16: Subchunk1Size *)
  ++ le_bytes 2 1                      (* 20: AudioFormat *)
  ++ le_bytes 2 channels               (* 22: NumChannels *)
  ++ le_bytes 4 rate                   (* 24: SampleRate *)
  ++ le_bytes 4 (rate * channels * bits / 8)   (* 28: ByteRate *)
  ++ le_bytes 2 (channels * bits / 8)  (* 32: BlockAlign *)
  ++ le_bytes 2 bits                   (* 34: BitsPerSample *)
  ++ String.list_byte_of_string "data" (* 36: Subchunk2ID *)
  ++ le_bytes 4 0.                     (* 40: Subchunk2Size, placeholder *)

(** The two size fields of a file. *)
Definition ChunkSize (file : list byte) : Z := field 4 4 file.
Definition Subchunk2Size (file : list byte) : Z := field 4 40 file.

(** The format fields of the writer, and of a frame. *)
Definition format (this : RecordToDiskPlugin) : Z * Z * Z :=
  (wavSampleRate this, wavBitsPerSample this, wavNumChannels this).

Definition formatOf (data : AudioDataWithUser) : Z * Z * Z :=
  (sampleRate data, bitsPerSample data, channelCount data).

(** The fields only hold numbers; they are unset while all three still hold
    the 0 the class initialises them with. *)
Definition formatSet (this : RecordToDiskPlugin) : bool :=
  negb ((wavSampleRate this =? 0) && (wavBitsPerSample this =? 0)
        && (wavNumChannels this =? 0)).

(** The bytes on disk. *)
Definition onDisk (this : RecordToDiskPlugin) : list byte :=
  contents (fileDescriptor this).

(** What [onAudioData] does to the state before it writes the header
    (lines 43-45 of the source) and after it (lines 51-53), as state
    transformers; [onAudioData_spec] below relates them to the method. *)
Definition latchFormat (data : AudioDataWithUser) (this : RecordToDiskPlugin)
  : RecordToDiskPlugin :=
  set_wavNumChannels (channelCount data)
    (set_wavBitsPerSample (bitsPerSample data)
       (set_wavSampleRate (sampleRate data) this)).

Definition queuePayload (data : AudioDataWithUser) (this : RecordToDiskPlugin)
  : RecordToDiskPlugin :=
  set_totalDataBytes (totalDataBytes this + Z.of_nat (length (payload data)))
    (set_outStream
       (stream_write (payload data) (negb (isOpen (fileDescriptor this))))
       this).

(** The outcome of the forwarding step (lines 56-58). *)
Definition forward (data : AudioDataWithUser) (this : RecordToDiskPlugin)
  : Result unit :=
  match onAudioCallback this with
  | Some callback => callback (samples data) (userId data)
  | None => Ok tt
  end.

(** What holds of the file in every state a writer can be in: as long as no
    header has been written nothing else has been either, and once it has
    been, the file holds at least the 44 bytes of the header. *)
Definition consistent (this : RecordToDiskPlugin) : Prop :=
  (headerWritten this = false ->
   onDisk this = [] /\ pending (outStream this) = [] /\ totalDataBytes this = 0)
  /\ (headerWritten this = true -> (44 <= length (onDisk this))%nat).

(** A writer that is being fed: descriptor open, stream not ended, [n] bytes
    counted. *)
Definition fed (n : Z) (this : RecordToDiskPlugin) : Prop :=
  isOpen (fileDescriptor this) = true
  /\ ending (outStream this) = false
  /\ totalDataBytes this = n.

(** Frames used in the examples below. *)
Definition frameOf (bits rate channels : Z) (bytes : list byte) : AudioDataWithUser :=
  mkAudioData bits rate channels (Z.of_nat (length bytes) / 2)
    (mkInt16Array bytes 0 (length bytes)) None.

Definition stereo48k : list byte -> AudioDataWithUser := frameOf 16 48000 2.
Definition mono16k : list byte -> AudioDataWithUser := frameOf 16 16000 1.

Definition F1 : AudioDataWithUser :=
  stereo48k [x01; x02; x03; x04; x05; x06; x07; x08].
Definition F2 : AudioDataWithUser :=
  stereo48k [x09; x0a; x0b; x0c].

(** A state on which [cleanup] has already done its work: the stream is ended
    and, if there were sizes to backfill, they are in the header. *)
Definition finalized (this : RecordToDiskPlugin) : Prop :=
  ending (outStream this) = true
  /\ (headerWritten this && (0 <? totalDataBytes this) = true ->
      fitsU 4 (36 + totalDataBytes this) = true
      /\ (44 <= length (onDisk this))%nat
      /\ slice 4 4 (onDisk this) = le_bytes 4 (36 + totalDataBytes this)
      /\ slice 40 4 (onDisk this) = le_bytes 4 (totalDataBytes this)).

(** The descriptor after the stream has written [chunks] in order, each at
    the offset the previous one left. *)
Definition writeAll (chunks : list (list byte)) (f : File) : File :=
  fold_left (fun f chunk => write chunk f) chunks f.

(** A forwarding callback that always throws. *)
Definition failingCallback : AudioCallback :=
  fun _ _ => Throw (Thrown "forwarding failed").

(** The default of the constructor's [outputPath] parameter. *)
Definition defaultOutputPath : String.string := "/tmp/speaker_audio.wav".

(** A frame whose format is not the all-zero triple of an unset writer. *)
Definition nonzeroFormat (data : AudioDataWithUser) : bool :=
  negb ((sampleRate data =? 0) && (bitsPerSample data =? 0)
        && (channelCount data =? 0)).

(** Every ingest call of the run left the header written: none of them threw
    while building or writing it. *)
Fixpoint headerWritesSucceed (events : list Event) (this : RecordToDiskPlugin)
  : bool :=
  match events with
  | [] => true
  | e :: rest =>
      match e with
      | Ingest _ => headerWritten (snd (step e this))
      | _ => true
      end
      && headerWritesSucceed rest (snd (step e this))
  end.

(** One GiB of silence, and the 48 kHz stereo frame that carries it. *)
Definition oneGiB : list byte := repeat x00 (Z.to_nat (2 ^ 30)).
Definition gibFrame : AudioDataWithUser := stereo48k oneGiB.

(** * Properties *)

(** ** Little-endian encoding *)

Lemma Z_of_byte_of_Z z : Z_of_byte (byte_of_Z z) = z mod 256.
Proof.
  unfold Z_of_byte, byte_of_Z.
  assert (H : 0 <= z mod 256 < 256) by (apply Z.mod_pos_bound; lia).
  destruct (Byte.of_N (Z.to_N (z mod 256))) as [b|] eqn:E.
  - apply Byte.to_of_N in E. rewrite E. lia.
  - apply Byte.of_N_None_iff in E. lia.
Qed.

Lemma length_le_bytes n : forall v, length (le_bytes n v) = n.
Proof. induction n as [|n IH]; intros v; simpl; [reflexivity | now rewrite IH]. Qed.

Lemma le_value_le_bytes_mod n : forall v,
  le_value (le_bytes n v) = v mod 256 ^ Z.of_nat n.
Proof.
  induction n as [|n IH]; intros v.
  - simpl. now rewrite Z.mod_1_r.
  - cbn [le_bytes le_value]. rewrite Z_of_byte_of_Z, IH.
    rewrite Nat2Z.inj_succ, Z.pow_succ_r by lia.
    rewrite Z.rem_mul_r by lia. reflexivity.
Qed.

Lemma le_value_le_bytes n v :
  0 <= v < 256 ^ Z.of_nat n -> le_value (le_bytes n v) = v.
Proof. intros H. rewrite le_value_le_bytes_mod. now apply Z.mod_small. Qed.

(** ** Range checks on exact rationals *)

Lemma Qle_bool_inject_Z a b : Qle_bool (inject_Z a) (inject_Z b) = (a <=? b).
Proof. unfold Qle_bool, inject_Z; simpl. now rewrite !Z.mul_1_r. Qed.

Lemma Qle_bool_0_inject_Z a : Qle_bool 0 (inject_Z a) = (0 <=? a).
Proof. exact (Qle_bool_inject_Z 0 a). Qed.

Lemma writeUIntLE_integer size v offset buf :
  Buffer.writeUIntLE size (inject_Z v) offset buf =
  if fitsU size v then
    if (length buf <? offset + size)%nat then Throw (ERR_OUT_OF_RANGE "offset")
    else Ok (Buffer.blit (le_bytes size v) offset buf)
  else Throw (ERR_OUT_OF_RANGE "value").
Proof.
  unfold Buffer.writeUIntLE, fitsU.
  rewrite Qle_bool_inject_Z, Qle_bool_0_inject_Z, Qfloor_Z.
  destruct (0 <=? v), (v <=? 2 ^ (8 * Z.of_nat size) - 1); reflexivity.
Qed.

(** [byteRate] and [blockAlign] are multiples of 1/8: the range check compares
    the numerator with eight times the bound, and the bytes stored are those
    of the integer quotient. *)
Lemma writeUIntLE_byteRate r c b offset buf :
  Buffer.writeUIntLE 4 (inject_Z r * inject_Z c * (inject_Z b / 8)) offset buf =
  if (0 <=? r * c * b) && (r * c * b <=? 8 * (2 ^ 32 - 1)) then
    if (length buf <? offset + 4)%nat then Throw (ERR_OUT_OF_RANGE "offset")
    else Ok (Buffer.blit (le_bytes 4 (r * c * b / 8)) offset buf)
  else Throw (ERR_OUT_OF_RANGE "value").
Proof.
  unfold Buffer.writeUIntLE.
  replace (Qle_bool (inject_Z r * inject_Z c * (inject_Z b / 8))
             (inject_Z (2 ^ (8 * Z.of_nat 4) - 1)))
    with (r * c * b <=? 8 * (2 ^ 32 - 1))
    by (unfold Qle_bool, inject_Z; cbn -[Z.mul Z.leb Z.div]; f_equal; lia).
  replace (Qle_bool 0 (inject_Z r * inject_Z c * (inject_Z b / 8)))
    with (0 <=? r * c * b)
    by (unfold Qle_bool, inject_Z; cbn -[Z.mul Z.leb Z.div]; f_equal; lia).
  replace (Qfloor (inject_Z r * inject_Z c * (inject_Z b / 8)))
    with (r * c * b / 8)
    by (unfold Qfloor, inject_Z; cbn -[Z.mul Z.leb Z.div]; f_equal; lia).
  destruct (0 <=? r * c * b), (r * c * b <=? 8 * (2 ^ 32 - 1)); reflexivity.
Qed.

Lemma writeUIntLE_blockAlign c b offset buf :
  Buffer.writeUIntLE 2 (inject_Z c * (inject_Z b / 8)) offset buf =
  if (0 <=? c * b) && (c * b <=? 8 * (2 ^ 16 - 1)) then
    if (length buf <? offset + 2)%nat then Throw (ERR_OUT_OF_RANGE "offset")
    else Ok (Buffer.blit (le_bytes 2 (c * b / 8)) offset buf)
  else Throw (ERR_OUT_OF_RANGE "value").
Proof.
  unfold Buffer.writeUIntLE.
  replace (Qle_bool (inject_Z c * (inject_Z b / 8))
             (inject_Z (2 ^ (8 * Z.of_nat 2) - 1)))
    with (c * b <=? 8 * (2 ^ 16 - 1))
    by (unfold Qle_bool, inject_Z; cbn -[Z.mul Z.leb Z.div]; f_equal; lia).
  replace (Qle_bool 0 (inject_Z c * (inject_Z b / 8)))
    with (0 <=? c * b)
    by (unfold Qle_bool, inject_Z; cbn -[Z.mul Z.leb Z.div]; f_equal; lia).
  replace (Qfloor (inject_Z c * (inject_Z b / 8)))
    with (c * b / 8)
    by (unfold Qfloor, inject_Z; cbn -[Z.mul Z.leb Z.div]; f_equal; lia).
  destruct (0 <=? c * b), (c * b <=? 8 * (2 ^ 16 - 1)); reflexivity.
Qed.

(** ** The header *)

Ltac header_step :=
  cbn -[Buffer.writeUIntLE fitsU Z.leb Z.mul Z.pow Z.sub Z.div byte_of_Z wavLayout];
  first [ rewrite writeUIntLE_integer
        | rewrite writeUIntLE_byteRate
        | rewrite writeUIntLE_blockAlign ].

(** [wavHeader] either builds exactly the documented layout or throws the
    [RangeError] of the first field that does not fit. *)
Lemma wavHeader_spec c r b :
  wavHeader c r b =
  if header_ok c r b then Ok (wavLayout c r b)
  else Throw (ERR_OUT_OF_RANGE "value").
Proof.
  unfold wavHeader, Buffer.writeUInt16LE, Buffer.writeUInt32LE, header_ok.
  change 16%Q with (inject_Z 16). change 1%Q with (inject_Z 1).
  header_step. change (fitsU 4 16) with true.
  header_step. change (fitsU 2 1) with true.
  header_step. destruct (fitsU 2 c); [|reflexivity].
  header_step. destruct (fitsU 4 r); [|reflexivity].
  header_step.
  destruct ((0 <=? r * c * b) && (r * c * b <=? 8 * (2 ^ 32 - 1))); [|reflexivity].
  header_step.
  destruct ((0 <=? c * b) && (c * b <=? 8 * (2 ^ 16 - 1))); [|reflexivity].
  header_step. destruct (fitsU 2 b); reflexivity.
Qed.

Lemma length_wavLayout c r b : length (wavLayout c r b) = 44%nat.
Proof. reflexivity. Qed.

(** ** Stores into a file *)

Lemma length_store bs pos old :
  length (store bs pos old) = Nat.max (length old) (pos + length bs).
Proof.
  unfold store.
  rewrite !length_app, length_firstn, repeat_length, length_skipn. lia.
Qed.

Lemma store_prefix_length pos (old : list byte) :
  length (firstn pos old ++ repeat x00 (pos - length old)) = pos.
Proof. rewrite length_app, length_firstn, repeat_length. lia. Qed.

(** Reading back what was just stored. *)
Lemma slice_store_same bs pos old :
  slice pos (length bs) (store bs pos old) = bs.
Proof.
  unfold slice, store.
  rewrite app_assoc, skipn_app, store_prefix_length, Nat.sub_diag.
  rewrite skipn_all2 by (rewrite store_prefix_length; lia).
  cbn [skipn app]. rewrite firstn_app, Nat.sub_diag, firstn_all.
  cbn [firstn]. now rewrite app_nil_r.
Qed.

Lemma slice_store_at bs pos old n :
  length bs = n -> slice pos n (store bs pos old) = bs.
Proof. intros <-. apply slice_store_same. Qed.

(** A store does not touch the bytes in front of it. *)
Lemma slice_store_before bs pos old off n :
  (off + n <= pos)%nat -> (off + n <= length old)%nat ->
  slice off n (store bs pos old) = slice off n old.
Proof.
  intros Hpos Hlen. unfold slice, store.
  rewrite !firstn_skipn_comm. f_equal.
  rewrite firstn_app, firstn_firstn.
  replace (Nat.min (off + n) pos) with (off + n)%nat by lia.
  rewrite length_firstn.
  replace (off + n - Nat.min pos (length old))%nat with 0%nat by lia.
  cbn [firstn]. now rewrite app_nil_r.
Qed.

(** Storing bytes that are already there changes nothing. *)
Lemma store_same bs pos old :
  slice pos (length bs) old = bs -> (pos + length bs <= length old)%nat ->
  store bs pos old = old.
Proof.
  intros Hslice Hlen. unfold store, slice in *.
  replace (pos - length old)%nat with 0%nat by lia. cbn [repeat app].
  rewrite <- (firstn_skipn pos old) at 3. f_equal.
  rewrite <- (firstn_skipn (length bs) (skipn pos old)), Hslice.
  f_equal. rewrite skipn_skipn. f_equal. lia.
Qed.

Lemma field_slice size offset bs : field size offset bs = le_value (slice offset size bs).
Proof. reflexivity. Qed.

(** ** The methods, without the monad *)

Lemma fitsU_inv size v :
  fitsU size v = true -> 0 <= v <= 2 ^ (8 * Z.of_nat size) - 1.
Proof. unfold fitsU. rewrite andb_true_iff, !Z.leb_le. tauto. Qed.

Lemma fitsU_intro size v :
  0 <= v <= 2 ^ (8 * Z.of_nat size) - 1 -> fitsU size v = true.
Proof. unfold fitsU. rewrite andb_true_iff, !Z.leb_le. tauto. Qed.

(** [cleanup]: the two size fields are stored only when a header was written
    and data followed, and then only if the RIFF size fits 32 bits and the
    descriptor is still open; the stream is ended when nothing threw. *)
Lemma cleanup_spec this :
  cleanup this =
  if headerWritten this && (0 <? totalDataBytes this) then
    if fitsU 4 (36 + totalDataBytes this) then
      if isOpen (fileDescriptor this) then
        (Ok tt,
         set_outStream stream_end
           (set_fileDescriptor (pwrite (le_bytes 4 (totalDataBytes this)) 40)
              (set_fileDescriptor
                 (pwrite (le_bytes 4 (36 + totalDataBytes this)) 4) this)))
      else (Throw EBADF, this)
    else (Throw (ERR_OUT_OF_RANGE "value"), this)
  else (Ok tt, set_outStream stream_end this).
Proof.
  unfold cleanup, bind, get.
  destruct (headerWritten this && (0 <? totalDataBytes this)) eqn:Hdata;
    [|reflexivity].
  apply andb_true_iff in Hdata. destruct Hdata as [_ Hpos].
  apply Z.ltb_lt in Hpos.
  unfold updateWavHeaderSizes, Buffer.writeUInt32LE, bind, get, lift.
  rewrite writeUIntLE_integer.
  destruct (fitsU 4 (36 + totalDataBytes this)) eqn:Hfit; [|reflexivity].
  apply fitsU_inv in Hfit.
  cbn [Buffer.alloc repeat length Nat.ltb Nat.leb Nat.add].
  unfold fs_writeSync at 1. unfold bind at 1. unfold get at 1.
  cbn [Buffer.blit length le_bytes Nat.ltb Nat.leb Nat.add firstn skipn app].
  destruct (isOpen (fileDescriptor this)) eqn:Hopen; cbn [negb]; [|reflexivity].
  unfold bind, modify, ret, throw.
  rewrite writeUIntLE_integer.
  rewrite (fitsU_intro 4 (totalDataBytes this)) by lia.
  cbn [length Nat.ltb Nat.leb Nat.add].
  unfold fs_writeSync, bind, get, modify, ret, throw.
  cbn [Buffer.blit length le_bytes Nat.ltb Nat.leb Nat.add firstn skipn app
       set_fileDescriptor fileDescriptor pwrite isOpen negb].
  rewrite Hopen. reflexivity.
Qed.

(** [onAudioData]: with the header written, the payload is queued and
    counted and the callback's outcome is the call's outcome.  Without it,
    the format is latched first; the call stops there if the header cannot be
    built or written. *)
Lemma onAudioData_spec data this :
  onAudioData data this =
  if headerWritten this then (forward data this, queuePayload data this)
  else if frame_ok data then
    if isOpen (fileDescriptor this) then
      (forward data this,
       queuePayload data
         (set_headerWritten true
            (set_fileDescriptor
               (pwrite (wavLayout (channelCount data) (sampleRate data)
                          (bitsPerSample data)) 0)
               (latchFormat data this))))
    else (Throw EBADF, latchFormat data this)
  else (Throw (ERR_OUT_OF_RANGE "value"), latchFormat data this).
Proof.
  destruct this as [[bytes pos open] stream cb written total rate bits channels].
  unfold onAudioData, writeWavHeaderPlaceholder, fs_writeSync, outStream_write,
    forward, queuePayload, latchFormat, payload, frame_ok,
    bind, get, modify, lift, ret, throw.
  cbn [headerWritten negb set_wavSampleRate set_wavBitsPerSample
       set_wavNumChannels set_headerWritten set_outStream set_totalDataBytes
       set_fileDescriptor wavNumChannels wavSampleRate wavBitsPerSample
       fileDescriptor outStream onAudioCallback totalDataBytes isOpen].
  destruct written; cbn [negb].
  - destruct cb; reflexivity.
  - rewrite wavHeader_spec.
    destruct (header_ok (channelCount data) (sampleRate data) (bitsPerSample data));
      [|reflexivity].
    rewrite length_wavLayout. cbn [Nat.ltb Nat.leb Nat.add].
    destruct open; cbn [negb]; [|reflexivity].
    destruct cb; reflexivity.
Qed.

(** ** Runs *)

Lemma run_app t1 : forall t2 this, run (t1 ++ t2) this = run t2 (run t1 this).
Proof. induction t1 as [|e t1 IH]; intros; cbn [run app]; [reflexivity | apply IH]. Qed.

(** With nothing pending, a completion can only close the descriptor. *)
Lemma ioComplete_idle this :
  pending (outStream this) = [] ->
  ioComplete this =
  if ending (outStream this) then set_fileDescriptor close this else this.
Proof. intros H. unfold ioComplete. now rewrite H. Qed.

Lemma run_idle k : forall this,
  pending (outStream this) = [] ->
  onDisk (run (repeat IoComplete k) this) = onDisk this
  /\ pending (outStream (run (repeat IoComplete k) this)) = []
  /\ ending (outStream (run (repeat IoComplete k) this)) = ending (outStream this)
  /\ isOpen (fileDescriptor (run (repeat IoComplete k) this)) =
     match k with
     | O => isOpen (fileDescriptor this)
     | S _ => isOpen (fileDescriptor this) && negb (ending (outStream this))
     end.
Proof.
  induction k as [|k IH]; intros this Hp.
  - cbn [repeat run]. auto.
  - cbn [repeat run step snd]. rewrite (ioComplete_idle this Hp).
    destruct (ending (outStream this)) eqn:He.
    + destruct (IH (set_fileDescriptor close this) Hp) as (Hd & Hq & Hend & Hopen).
      rewrite Hd, Hq, Hend, Hopen. cbn. rewrite He.
      repeat split; try reflexivity. destruct k; cbn; now rewrite ?andb_false_r.
    + destruct (IH this Hp) as (Hd & Hq & Hend & Hopen).
      rewrite Hd, Hq, Hend, Hopen, He.
      repeat split; try reflexivity. destruct k; now rewrite ?andb_true_r.
Qed.

(** ** The invariant of the file *)

(** Reduce the projections of an updated state. *)
Ltac project :=
  unfold onDisk, queuePayload, latchFormat in *;
  cbn [fileDescriptor outStream onAudioCallback headerWritten totalDataBytes
       wavSampleRate wavBitsPerSample wavNumChannels
       set_fileDescriptor set_outStream set_headerWritten set_totalDataBytes
       set_wavSampleRate set_wavBitsPerSample set_wavNumChannels
       contents position isOpen pwrite write close
       pending ending errored stream_end fst snd] in *.

Lemma consistent_new path cb : consistent (constructor path cb).
Proof. split; cbn; [auto | discriminate]. Qed.

Lemma consistent_step e this : consistent this -> consistent (snd (step e this)).
Proof.
  intros [Hno Hyes]. destruct e as [data| |]; cbn [step snd].
  - rewrite onAudioData_spec.
    destruct (headerWritten this) eqn:Hw.
    + split; project; [congruence | intros _; now apply Hyes].
    + destruct (frame_ok data); [destruct (isOpen (fileDescriptor this))|].
      * split; project; [discriminate | intros _].
        rewrite length_store, length_wavLayout. lia.
      * split; project; [intros _; now apply Hno | congruence].
      * split; project; [intros _; now apply Hno | congruence].
  - rewrite cleanup_spec.
    destruct (headerWritten this) eqn:Hw; cbn [andb].
    + destruct (0 <? totalDataBytes this);
        [destruct (fitsU 4 (36 + totalDataBytes this));
         [destruct (isOpen (fileDescriptor this))|]|];
        (split; project; [congruence | intros _]); try now apply Hyes.
      rewrite !length_store, !length_le_bytes. lia.
    + split; project; [intros _; now apply Hno | congruence].
  - unfold ioComplete.
    destruct (pending (outStream this)) as [|chunk rest] eqn:Hp.
    + destruct (ending (outStream this));
        (split; project; [intros H; destruct (Hno H) as (? & ? & ?); auto | assumption]).
    + assert (Hw : headerWritten this = true).
      { destruct (headerWritten this); [reflexivity|].
        destruct (Hno eq_refl) as (_ & Hq & _). congruence. }
      destruct (isOpen (fileDescriptor this));
        (split; project; [congruence | intros _]).
      * rewrite length_store. specialize (Hyes Hw). lia.
      * now apply Hyes.
Qed.

Lemma reachable_consistent cb this : reachable cb this -> consistent this.
Proof.
  induction 1 as [path | this e _ IH];
    [apply consistent_new | now apply consistent_step].
Qed.

Lemma consistent_run t : forall this, consistent this -> consistent (run t this).
Proof.
  induction t as [|e t IH]; intros this H; cbn [run]; [assumption|].
  now apply IH, consistent_step.
Qed.

Lemma reachable_run cb t : forall this, reachable cb this -> reachable cb (run t this).
Proof.
  induction t as [|e t IH]; intros this H; cbn [run]; [assumption|].
  now apply IH, reachable_step.
Qed.

(** ** Feeding the writer *)

Lemma fed_ingest data n this :
  frame_ok data = true -> fed n this ->
  fed (n + Z.of_nat (length (payload data))) (snd (onAudioData data this)).
Proof.
  intros Hok (Hopen & Hend & Htotal). rewrite onAudioData_spec, Hok, Hopen.
  unfold fed.
  destruct (headerWritten this); project; unfold stream_write;
    rewrite Hend; project; auto with zarith.
Qed.

Lemma fed_ioComplete n this : fed n this -> fed n (ioComplete this).
Proof.
  intros (Hopen & Hend & Htotal). unfold ioComplete, fed.
  destruct (pending (outStream this)) as [|chunk rest].
  - rewrite Hend. auto.
  - rewrite Hopen. project. auto.
Qed.

Lemma fed_run t : forall n this,
  forallb feeding t = true ->
  forallb frame_ok (ingested t) = true ->
  fed n this ->
  fed (n + payloadBytes (ingested t)) (run t this).
Proof.
  induction t as [|[data| |] t IH]; intros n this Hfeed Hok Hfed;
    cbn [run step snd ingested payloadBytes forallb feeding] in *.
  - now rewrite Z.add_0_r.
  - apply andb_true_iff in Hok. destruct Hok as [Hok Hrest].
    rewrite Z.add_assoc. apply IH; auto. now apply fed_ingest.
  - discriminate.
  - apply IH; auto. now apply fed_ioComplete.
Qed.

Lemma fed_new path cb : fed 0 (constructor path cb).
Proof. repeat split. Qed.

(** What the backfill leaves in the two size fields. *)
Lemma backfilled_sizes total old :
  (44 <= length old)%nat -> 0 <= total -> 36 + total <= 2 ^ 32 - 1 ->
  let file := store (le_bytes 4 total) 40 (store (le_bytes 4 (36 + total)) 4 old) in
  ChunkSize file = 36 + total /\ Subchunk2Size file = total.
Proof.
  intros Hlen H0 Hmax file. unfold ChunkSize, Subchunk2Size. rewrite !field_slice.
  split.
  - unfold file.
    rewrite slice_store_before
      by (rewrite ?length_store, ?length_le_bytes; lia).
    rewrite slice_store_at by apply length_le_bytes.
    rewrite le_value_le_bytes; [reflexivity|].
    change (256 ^ Z.of_nat 4) with (2 ^ 32). lia.
  - unfold file.
    rewrite slice_store_at by apply length_le_bytes.
    rewrite le_value_le_bytes; [reflexivity|].
    change (256 ^ Z.of_nat 4) with (2 ^ 32). lia.
Qed.

(** ** Finalizing again *)

Lemma run_idle_ended k : forall this,
  pending (outStream this) = [] -> ending (outStream this) = true ->
  run (repeat IoComplete (S k)) this = set_fileDescriptor close this.
Proof.
  induction k as [|k IH]; intros this Hp He.
  - cbn [repeat run step snd]. now rewrite ioComplete_idle, He.
  - change (repeat IoComplete (S (S k))) with (IoComplete :: repeat IoComplete (S k)).
    cbn [run step snd]. rewrite ioComplete_idle, He by assumption.
    now rewrite IH.
Qed.

(** The first [cleanup] that returns leaves a finalized state. *)
Lemma cleanup_finalizes this :
  fst (cleanup this) = Ok tt -> finalized (snd (cleanup this)).
Proof.
  rewrite cleanup_spec.
  destruct (headerWritten this && (0 <? totalDataBytes this)) eqn:Hdata.
  - destruct (fitsU 4 (36 + totalDataBytes this)) eqn:Hfit; [|discriminate].
    destruct (isOpen (fileDescriptor this)); [|discriminate].
    intros _. split; project; [reflexivity|]. intros _.
    split; [assumption|]. split; [rewrite !length_store, !length_le_bytes; lia|].
    split.
    + rewrite slice_store_before
        by (rewrite ?length_store, ?length_le_bytes; lia).
      now rewrite slice_store_at by apply length_le_bytes.
    + now rewrite slice_store_at by apply length_le_bytes.
  - intros _. split; project; [reflexivity|]. congruence.
Qed.

(** On a finalized state [cleanup] changes nothing; it throws EBADF if it has
    sizes to store and the descriptor is closed, and returns otherwise. *)
Lemma cleanup_finalized this :
  finalized this ->
  snd (cleanup this) = this
  /\ fst (cleanup this) =
     if headerWritten this && (0 <? totalDataBytes this)
        && negb (isOpen (fileDescriptor this))
     then Throw EBADF else Ok tt.
Proof.
  intros [Hend Hsizes]. rewrite cleanup_spec.
  destruct this as [[bytes pos open] [queue e err] cb written total rate bits channels].
  project. subst e.
  destruct (written && (0 <? total)) eqn:Hdata; cbn [andb].
  - destruct (Hsizes eq_refl) as (Hfit & Hlen & H4 & H40). rewrite Hfit.
    destruct open; cbn [negb]; [|split; reflexivity].
    split; [|reflexivity].
    unfold set_outStream, set_fileDescriptor, stream_end, pwrite. project.
    rewrite (store_same (le_bytes 4 (36 + total)) 4 bytes)
      by (rewrite ?length_le_bytes; assumption || lia).
    rewrite (store_same (le_bytes 4 total) 40 bytes)
      by (rewrite ?length_le_bytes; assumption || lia).
    reflexivity.
  - split; reflexivity.
Qed.

(** ** Draining the stream *)

Lemma position_writeAll chunks : forall f,
  position (writeAll chunks f) = (position f + length (concat chunks))%nat.
Proof.
  induction chunks as [|c q IH]; intros f; cbn [writeAll fold_left concat length].
  - lia.
  - fold (writeAll q (write c f)). rewrite IH, length_app. cbn [write position]. lia.
Qed.

Lemma writeAll_snoc chunks c f :
  writeAll (chunks ++ [c]) f = write c (writeAll chunks f).
Proof. unfold writeAll. now rewrite fold_left_app. Qed.

(** As many completions as there are pending chunks write them all, in
    order, through an open descriptor. *)
Lemma run_drain q : forall this,
  pending (outStream this) = q -> isOpen (fileDescriptor this) = true ->
  run (repeat IoComplete (length q)) this =
  set_outStream (fun s => mkWriteStream [] (ending s) (errored s))
    (set_fileDescriptor (writeAll q) this).
Proof.
  induction q as [|c q IH]; intros this Hq Hopen.
  - cbn [length repeat run writeAll fold_left].
    destruct this as [fd [p e er] cb w t r b ch]. project. now subst p.
  - cbn [length repeat run step snd]. unfold ioComplete. rewrite Hq, Hopen.
    rewrite IH by (project; auto).
    cbn [writeAll fold_left]. reflexivity.
Qed.

(** The last chunk of the queue is on disk once the stream has drained, at
    the offset the chunks before it leave. *)
Lemma settle_last_chunk q c this :
  pending (outStream this) = q ++ [c] -> isOpen (fileDescriptor this) = true ->
  slice (position (fileDescriptor this) + length (concat q)) (length c)
    (onDisk (settle this)) = c.
Proof.
  intros Hq Hopen. unfold settle. rewrite Hq.
  replace (S (length (q ++ [c]))) with (length (q ++ [c]) + 1)%nat by lia.
  rewrite repeat_app, run_app, (run_drain (q ++ [c])) by assumption.
  match goal with |- context [run (repeat IoComplete 1) ?s] =>
    destruct (run_idle 1 s eq_refl) as (Hd & _) end.
  rewrite Hd. project. rewrite writeAll_snoc. cbn [write contents].
  rewrite position_writeAll. apply slice_store_same.
Qed.

(** Once ended, a drained stream has closed the descriptor. *)
Lemma settle_idle this :
  pending (outStream this) = [] ->
  onDisk (settle this) = onDisk this
  /\ isOpen (fileDescriptor (settle this)) =
     isOpen (fileDescriptor this) && negb (ending (outStream this)).
Proof.
  intros Hp. unfold settle. rewrite Hp. cbn [length].
  destruct (run_idle 1 this Hp) as (Hd & _ & _ & Hopen). auto.
Qed.

(** ** The header on disk *)

Lemma store_empty bs : store bs 0 [] = bs.
Proof. unfold store. cbn [firstn Nat.sub length repeat app]. now rewrite skipn_nil, app_nil_r. Qed.

Lemma header_ok_inv c r b :
  header_ok c r b = true ->
  0 <= c < 2 ^ 16 /\ 0 <= r < 2 ^ 32 /\ 0 <= b < 2 ^ 16
  /\ 0 <= r * c * b / 8 < 2 ^ 32 /\ 0 <= c * b / 8 < 2 ^ 16.
Proof.
  unfold header_ok, fitsU. rewrite !andb_true_iff, !Z.leb_le.
  change (2 ^ (8 * Z.of_nat 2) - 1) with (2 ^ 16 - 1).
  change (2 ^ (8 * Z.of_nat 4) - 1) with (2 ^ 32 - 1).
  intros ((((Hc & Hr) & Hrate) & Halign) & Hb).
  assert (0 <= r * c * b / 8 <= 2 ^ 32 - 1).
  { split; [apply Z.div_pos; lia | apply Z.div_le_upper_bound; lia]. }
  assert (0 <= c * b / 8 <= 2 ^ 16 - 1).
  { split; [apply Z.div_pos; lia | apply Z.div_le_upper_bound; lia]. }
  lia.
Qed.

(** The fields of the layout read back as the values they were built from. *)
Lemma wavLayout_fields c r b :
  header_ok c r b = true ->
  let file := wavLayout c r b in
  length file = 44%nat
  /\ slice 0 4 file = String.list_byte_of_string "RIFF"
  /\ ChunkSize file = 0
  /\ slice 8 4 file = String.list_byte_of_string "WAVE"
  /\ slice 12 4 file = String.list_byte_of_string "fmt "
  /\ field 4 16 file = 16
  /\ field 2 20 file = 1
  /\ field 2 22 file = c
  /\ field 4 24 file = r
  /\ field 4 28 file = r * c * b / 8
  /\ field 2 32 file = c * b / 8
  /\ field 2 34 file = b
  /\ slice 36 4 file = String.list_byte_of_string "data"
  /\ Subchunk2Size file = 0.
Proof.
  intros Hok file. apply header_ok_inv in Hok.
  destruct Hok as (Hc & Hr & Hb & Hrate & Halign).
  assert (H16 : forall v, 0 <= v < 2 ^ 16 -> le_value (le_bytes 2 v) = v)
    by (intros v Hv; now apply le_value_le_bytes).
  assert (H32 : forall v, 0 <= v < 2 ^ 32 -> le_value (le_bytes 4 v) = v)
    by (intros v Hv; now apply le_value_le_bytes).
  repeat split; try reflexivity.
  - change (field 2 22 file) with (le_value (le_bytes 2 c)). now apply H16.
  - change (field 4 24 file) with (le_value (le_bytes 4 r)). now apply H32.
  - change (field 4 28 file) with (le_value (le_bytes 4 (r * c * b / 8))).
    now apply H32.
  - change (field 2 32 file) with (le_value (le_bytes 2 (c * b / 8))).
    now apply H16.
  - change (field 2 34 file) with (le_value (le_bytes 2 b)). now apply H16.
Qed.

(** ** The latched format *)

Lemma step_latched e this :
  headerWritten this = true ->
  headerWritten (snd (step e this)) = true
  /\ format (snd (step e this)) = format this.
Proof.
  intros Hw. unfold format. destruct e as [data| |]; cbn [step snd].
  - rewrite onAudioData_spec, Hw. project. auto.
  - rewrite cleanup_spec, Hw.
    destruct (true && (0 <? totalDataBytes this));
      [destruct (fitsU 4 (36 + totalDataBytes this));
       [destruct (isOpen (fileDescriptor this))|]|]; project; auto.
  - unfold ioComplete.
    destruct (pending (outStream this));
      [destruct (ending (outStream this))
      |destruct (isOpen (fileDescriptor this))]; project; auto.
Qed.

Lemma run_latched t : forall this,
  headerWritten this = true ->
  headerWritten (run t this) = true /\ format (run t this) = format this.
Proof.
  induction t as [|e t IH]; intros this Hw; cbn [run]; [auto|].
  destruct (step_latched e this Hw) as [Hw' Hf].
  destruct (IH _ Hw') as [Hw'' Hf']. split; congruence.
Qed.

(** Without a header, only an ingest call touches the format fields, and it
    sets them to the frame's whatever its outcome. *)
Lemma step_unlatched e this :
  headerWritten this = false ->
  match e with
  | Ingest data => format (snd (step e this)) = formatOf data
  | _ => format (snd (step e this)) = format this
         /\ headerWritten (snd (step e this)) = false
  end.
Proof.
  intros Hw. unfold format, formatOf. destruct e as [data| |]; cbn [step snd].
  - rewrite onAudioData_spec, Hw.
    destruct (frame_ok data); [destruct (isOpen (fileDescriptor this))|];
      project; reflexivity.
  - rewrite cleanup_spec, Hw. project. auto.
  - unfold ioComplete.
    destruct (pending (outStream this));
      [destruct (ending (outStream this))
      |destruct (isOpen (fileDescriptor this))]; project; auto.
Qed.

Lemma formatSet_format this that :
  format this = format that -> formatSet this = formatSet that.
Proof. unfold format, formatSet. intros H; injection H as -> -> ->. reflexivity. Qed.

Lemma formatSet_formatOf this data :
  format this = formatOf data -> formatSet this = nonzeroFormat data.
Proof.
  unfold format, formatOf, formatSet, nonzeroFormat.
  intros H; injection H as -> -> ->. reflexivity.
Qed.

Lemma latched_set_run t : forall this,
  forallb nonzeroFormat (ingested t) = true ->
  (headerWritten this = true -> formatSet this = true) ->
  headerWritten (run t this) = true -> formatSet (run t this) = true.
Proof.
  induction t as [|e t IH]; intros this Hnz Hinv; cbn [run]; [assumption|].
  apply IH.
  - destruct e; cbn [ingested forallb] in Hnz; [|assumption..].
    now apply andb_true_iff in Hnz.
  - intros Hw'. destruct (headerWritten this) eqn:Hw.
    + destruct (step_latched e this Hw) as [_ Hf].
      rewrite (formatSet_format _ _ Hf). now apply Hinv.
    + pose proof (step_unlatched e this Hw) as Hstep.
      destruct e as [data| |]; [|destruct Hstep; congruence..].
      rewrite (formatSet_formatOf _ _ Hstep).
      cbn [ingested forallb] in Hnz. now apply andb_true_iff in Hnz.
Qed.

Lemma set_iff_latched_run t : forall this,
  forallb nonzeroFormat (ingested t) = true ->
  headerWritesSucceed t this = true ->
  formatSet this = headerWritten this ->
  formatSet (run t this) = headerWritten (run t this).
Proof.
  induction t as [|e t IH]; intros this Hnz Hok Hinv; cbn [run]; [assumption|].
  cbn [headerWritesSucceed] in Hok. apply andb_true_iff in Hok.
  destruct Hok as [Hnow Hrest]. apply IH; [|assumption|].
  - destruct e; cbn [ingested forallb] in Hnz; [|assumption..].
    now apply andb_true_iff in Hnz.
  - destruct (headerWritten this) eqn:Hw.
    + destruct (step_latched e this Hw) as [Hw' Hf].
      now rewrite (formatSet_format _ _ Hf), Hw'.
    + pose proof (step_unlatched e this Hw) as Hstep.
      destruct e as [data| |].
      * rewrite (formatSet_formatOf _ _ Hstep), Hnow.
        cbn [ingested forallb] in Hnz. now apply andb_true_iff in Hnz.
      * destruct Hstep as [Hf Hw']. now rewrite (formatSet_format _ _ Hf), Hw'.
      * destruct Hstep as [Hf Hw']. now rewrite (formatSet_format _ _ Hf), Hw'.
Qed.

(** ** Releasing the descriptor *)

Lemma run_completions_close q : forall this,
  pending (outStream this) = q -> ending (outStream this) = true ->
  isOpen (fileDescriptor (run (repeat IoComplete (S (length q))) this)) = false.
Proof.
  induction q as [|c q IH]; intros this Hq Hend.
  - rewrite run_idle_ended by assumption. reflexivity.
  - change (repeat IoComplete (S (length (c :: q))))
      with (IoComplete :: repeat IoComplete (S (length q))).
    cbn [run step snd]. apply IH; unfold ioComplete; rewrite Hq;
      destruct (isOpen (fileDescriptor this)); project; auto.
Qed.

Lemma settle_closes this :
  ending (outStream this) = true -> isOpen (fileDescriptor (settle this)) = false.
Proof. intros Hend. unfold settle. now apply run_completions_close. Qed.

Lemma fed_completions k : forall n this,
  fed n this -> fed n (run (repeat IoComplete k) this).
Proof.
  induction k as [|k IH]; intros n this H; cbn [repeat run step snd];
    [assumption|]. now apply IH, fed_ioComplete.
Qed.

Lemma length_oneGiB : Z.of_nat (length oneGiB) = 2 ^ 30.
Proof. unfold oneGiB. rewrite repeat_length, Z2Nat.id; [reflexivity|]. discriminate. Qed.

(** ** Where the payload goes *)

(** Appending to what the stream has written from offset 0. *)
Lemma store_extend a c h :
  store c (length a) (store a 0 h) = store (a ++ c) 0 h.
Proof.
  unfold store. cbn [firstn Nat.add app].
  replace (0 - length h)%nat with 0%nat by lia.
  replace (0 - length (repeat x00 0 ++ a ++ skipn (length a) h))%nat
    with 0%nat by lia.
  cbn [repeat app].
  rewrite firstn_app, Nat.sub_diag, firstn_all. cbn [firstn]. rewrite app_nil_r.
  replace (length a - length (a ++ skipn (length a) h))%nat with 0%nat
    by (rewrite length_app; lia).
  cbn [repeat app].
  rewrite skipn_app, skipn_skipn, length_app.
  rewrite (skipn_all2 (n := length a + length c) a) by lia.
  cbn [app]. rewrite <- app_assoc. do 3 f_equal. lia.
Qed.

(** While a writer with a header is fed, the bytes the stream has written so
    far are the first [position] bytes of all the payload handed to it, they
    lie on the header from offset 0, and the rest is pending. *)
Lemma streamed_run header t : forall all this,
  forallb feeding t = true ->
  headerWritten this = true ->
  fed (totalDataBytes this) this ->
  (position (fileDescriptor this) <= length all)%nat ->
  onDisk this = store (firstn (position (fileDescriptor this)) all) 0 header ->
  concat (pending (outStream this)) = skipn (position (fileDescriptor this)) all ->
  let all' := all ++ concat (map payload (ingested t)) in
  let this' := run t this in
  (position (fileDescriptor this') <= length all')%nat
  /\ onDisk this' = store (firstn (position (fileDescriptor this')) all') 0 header
  /\ concat (pending (outStream this')) = skipn (position (fileDescriptor this')) all'.
Proof.
  induction t as [|[data| |] t IH]; intros all this Hfeed Hw Hfed Hpos Hdisk Hq;
    cbn [run step snd ingested map concat forallb feeding andb] in *.
  - rewrite app_nil_r. auto.
  - rewrite app_assoc. destruct Hfed as (Hopen & Hend & _).
    apply IH; try assumption; rewrite ?onAudioData_spec, Hw; unfold fed; project;
      unfold stream_write; rewrite ?Hend; project; auto.
    + rewrite length_app. lia.
    + rewrite firstn_app.
      replace (position (fileDescriptor this) - length all)%nat with 0%nat by lia.
      cbn [firstn]. now rewrite app_nil_r.
    + rewrite concat_app, skipn_app, Hq. cbn [concat].
      replace (position (fileDescriptor this) - length all)%nat with 0%nat by lia.
      cbn [skipn]. now rewrite app_nil_r.
  - discriminate.
  - destruct Hfed as (Hopen & Hend & Ht).
    unfold ioComplete.
    destruct (pending (outStream this)) as [|c rest] eqn:Hp.
    + rewrite Hend. apply IH; try assumption; [repeat split; auto | now rewrite Hp].
    + rewrite Hopen. cbn [concat] in Hq.
      assert (Hlen : (position (fileDescriptor this) + length c <= length all)%nat).
      { assert (H : length (c ++ concat rest)
                    = (length all - position (fileDescriptor this))%nat)
          by (rewrite Hq; apply length_skipn).
        rewrite length_app in H. lia. }
      assert (Hfirst : firstn (position (fileDescriptor this) + length c) all
                       = firstn (position (fileDescriptor this)) all ++ c).
      { rewrite <- (firstn_skipn (position (fileDescriptor this)) all) at 1.
        rewrite firstn_app, length_firstn.
        replace (Nat.min (position (fileDescriptor this)) (length all))
          with (position (fileDescriptor this)) by lia.
        rewrite firstn_all2 by (rewrite length_firstn; lia).
        f_equal.
        replace (position (fileDescriptor this) + length c
                 - position (fileDescriptor this))%nat with (length c) by lia.
        rewrite <- Hq, firstn_app, Nat.sub_diag, firstn_all. cbn [firstn].
        now rewrite app_nil_r. }
      apply IH; try assumption; unfold fed; project; auto.
      * rewrite Hfirst, <- store_extend, Hdisk, length_firstn.
        replace (Nat.min (position (fileDescriptor this)) (length all))
          with (position (fileDescriptor this)) by lia.
        reflexivity.
      * rewrite Nat.add_comm, <- skipn_skipn, <- Hq, skipn_app, Nat.sub_diag.
        rewrite skipn_all. reflexivity.
Qed.

(** Once the stream has written everything, all the payload lies at the
    start of the file, in ingest order, and only what is left of the header
    follows it: the file is as long as the longer of the two. *)
Lemma drained_file path cb first t :
  frame_ok first = true ->
  forallb feeding t = true ->
  let this := run (Ingest first :: t) (constructor path cb) in
  let all := concat (map payload (first :: ingested t)) in
  let header := wavLayout (channelCount first) (sampleRate first)
                  (bitsPerSample first) in
  pending (outStream this) = [] ->
  onDisk this = all ++ skipn (length all) header
  /\ length (onDisk this) = Nat.max 44 (length all).
Proof.
  intros Hok Hfeed this all header Hidle.
  assert (Hstream :
    (position (fileDescriptor this) <= length all)%nat
    /\ onDisk this = store (firstn (position (fileDescriptor this)) all) 0 header
    /\ concat (pending (outStream this)) = skipn (position (fileDescriptor this)) all).
  { unfold this, all. cbn [run step snd map concat].
    apply (streamed_run header t (payload first)); try assumption;
      rewrite ?onAudioData_spec; cbn [constructor headerWritten fileDescriptor isOpen];
      rewrite ?Hok; project; try reflexivity.
    - repeat split.
    - cbn [constructor fileDescriptor position]. lia.
    - cbn [constructor outStream fileDescriptor position stream_write ending
           pending app concat skipn].
      now rewrite app_nil_r. }
  destruct Hstream as (Hpos & Hdisk & Hq).
  rewrite Hidle in Hq. cbn [concat] in Hq.
  assert (Hall : position (fileDescriptor this) = length all).
  { assert (H : length (skipn (position (fileDescriptor this)) all) = 0%nat)
      by now rewrite <- Hq.
    rewrite length_skipn in H. lia. }
  rewrite Hdisk, Hall, firstn_all.
  assert (Hstore : store all 0 header = all ++ skipn (length all) header).
  { unfold store. cbn [firstn Nat.sub repeat app Nat.add]. reflexivity. }
  rewrite Hstore. split; [reflexivity|].
  rewrite length_app, length_skipn. unfold header. rewrite length_wavLayout. lia.
Qed.

(** ** More on stores, offsets and feeding *)

Lemma store_fits bs pos old :
  (pos + length bs <= length old)%nat ->
  store bs pos old = firstn pos old ++ bs ++ skipn (pos + length bs) old.
Proof.
  intros H. unfold store.
  replace (pos - length old)%nat with 0%nat by lia. reflexivity.
Qed.

(** A store does not touch the bytes behind it. *)
Lemma slice_store_after bs pos old off n :
  (pos + length bs <= off)%nat -> (pos + length bs <= length old)%nat ->
  slice off n (store bs pos old) = slice off n old.
Proof.
  intros Hoff Hlen. unfold slice. f_equal.
  rewrite store_fits by assumption.
  rewrite app_assoc, skipn_app.
  rewrite skipn_all2 by (rewrite length_app, length_firstn; lia).
  rewrite length_app, length_firstn.
  replace (Nat.min pos (length old)) with pos by lia.
  cbn [app]. rewrite skipn_skipn. f_equal. lia.
Qed.

Lemma skipn_store_after bs pos old off :
  (pos + length bs <= off)%nat -> (pos + length bs <= length old)%nat ->
  skipn off (store bs pos old) = skipn off old.
Proof.
  intros Hoff Hlen.
  rewrite store_fits by assumption.
  rewrite app_assoc, skipn_app.
  rewrite skipn_all2 by (rewrite length_app, length_firstn; lia).
  rewrite length_app, length_firstn.
  replace (Nat.min pos (length old)) with pos by lia.
  cbn [app]. rewrite skipn_skipn. f_equal. lia.
Qed.

Lemma store_nothing pos old : (pos <= length old)%nat -> store [] pos old = old.
Proof.
  intros H. apply store_same; [reflexivity | cbn [length]; lia].
Qed.

Lemma payloadBytes_concat frames :
  payloadBytes frames = Z.of_nat (length (concat (map payload frames))).
Proof.
  induction frames as [|d f IH]; cbn [payloadBytes map concat]; [reflexivity|].
  rewrite length_app, IH. lia.
Qed.

(** The descriptor's offset never passes the end of the file. *)
Lemma write_within c f :
  (position f <= length (contents f))%nat ->
  (position (write c f) <= length (contents (write c f)))%nat.
Proof. intros H. cbn [write position contents]. rewrite length_store. lia. Qed.

Lemma writeAll_within q : forall f,
  (position f <= length (contents f))%nat ->
  (position (writeAll q f) <= length (contents (writeAll q f)))%nat.
Proof.
  induction q as [|c q IH]; intros f H; cbn [writeAll fold_left]; [assumption|].
  fold (writeAll q (write c f)). now apply IH, write_within.
Qed.

Lemma within_step e this :
  (position (fileDescriptor this) <= length (onDisk this))%nat ->
  (position (fileDescriptor (snd (step e this)))
   <= length (onDisk (snd (step e this))))%nat
  /\ (length (onDisk this) <= length (onDisk (snd (step e this))))%nat.
Proof.
  intros H. destruct e as [data| |]; cbn [step snd].
  - rewrite onAudioData_spec.
    destruct (headerWritten this);
      [|destruct (frame_ok data); [destruct (isOpen (fileDescriptor this))|]];
      project; rewrite ?length_store; lia.
  - rewrite cleanup_spec.
    destruct (headerWritten this && (0 <? totalDataBytes this));
      [destruct (fitsU 4 (36 + totalDataBytes this));
       [destruct (isOpen (fileDescriptor this))|]|];
      project; rewrite ?length_store; lia.
  - unfold ioComplete.
    destruct (pending (outStream this));
      [destruct (ending (outStream this))
      |destruct (isOpen (fileDescriptor this))];
      project; rewrite ?length_store; lia.
Qed.

Lemma reachable_within cb this :
  reachable cb this ->
  (position (fileDescriptor this) <= length (onDisk this))%nat.
Proof.
  induction 1 as [path | this e _ IH]; [cbn; lia | now apply within_step].
Qed.

Lemma isOpen_writeAll q : forall f, isOpen (writeAll q f) = isOpen f.
Proof.
  induction q as [|c q IH]; intros f; cbn [writeAll fold_left]; [reflexivity|].
  fold (writeAll q (write c f)). now rewrite IH.
Qed.

(** What the drained stream leaves, when the descriptor is open. *)
Lemma settle_open this :
  isOpen (fileDescriptor this) = true ->
  onDisk (settle this)
  = contents (writeAll (pending (outStream this)) (fileDescriptor this))
  /\ position (fileDescriptor (settle this))
     = (position (fileDescriptor this)
        + length (concat (pending (outStream this))))%nat
  /\ pending (outStream (settle this)) = []
  /\ isOpen (fileDescriptor (settle this)) = negb (ending (outStream this))
  /\ errored (outStream (settle this)) = errored (outStream this).
Proof.
  intros Hopen. unfold settle.
  replace (S (length (pending (outStream this))))
    with (length (pending (outStream this)) + 1)%nat by lia.
  rewrite repeat_app, run_app, (run_drain (pending (outStream this))) by auto.
  match goal with |- context [run (repeat IoComplete 1) ?s] =>
    destruct (run_idle 1 s eq_refl) as (Hd & Hq & _ & Ho);
    assert (He : errored (outStream (run (repeat IoComplete 1) s))
                 = errored (outStream s))
  end.
  { cbn [repeat run step snd]. rewrite ioComplete_idle by reflexivity.
    project. destruct (ending (outStream this)); reflexivity. }
  rewrite Hd, Hq, Ho, He. project.
  rewrite isOpen_writeAll, Hopen.
  repeat split; try reflexivity.
  cbn [repeat run step snd]. rewrite ioComplete_idle by reflexivity.
  project. destruct (ending (outStream this)); project;
    now rewrite position_writeAll.
Qed.

Lemma ioComplete_fields this :
  headerWritten (ioComplete this) = headerWritten this
  /\ totalDataBytes (ioComplete this) = totalDataBytes this
  /\ format (ioComplete this) = format this.
Proof.
  unfold ioComplete, format.
  destruct (pending (outStream this));
    [destruct (ending (outStream this))
    |destruct (isOpen (fileDescriptor this))]; project; auto.
Qed.

(** A fed writer has its header written as soon as one frame has been
    ingested whose header can be built. *)
Lemma written_fed_run t : forall n this,
  forallb feeding t = true ->
  forallb frame_ok (ingested t) = true ->
  fed n this ->
  headerWritten (run t this)
  = match ingested t with [] => headerWritten this | _ :: _ => true end.
Proof.
  induction t as [|[data| |] t IH]; intros n this Hfeed Hok Hfed;
    cbn [run step snd ingested forallb feeding andb] in *.
  - reflexivity.
  - apply andb_true_iff in Hok. destruct Hok as [Hok _].
    apply run_latched. destruct Hfed as (Hopen & _).
    rewrite onAudioData_spec, Hok, Hopen.
    destruct (headerWritten this) eqn:Hw; project; auto.
  - discriminate.
  - rewrite (IH n (ioComplete this)); auto using fed_ioComplete.
    destruct (ioComplete_fields this) as (-> & _). reflexivity.
Qed.

(** With the header written, feeding counts every payload, whatever format
    the frames carry. *)
Lemma fed_written_run t : forall n this,
  forallb feeding t = true ->
  headerWritten this = true ->
  fed n this ->
  fed (n + payloadBytes (ingested t)) (run t this).
Proof.
  induction t as [|[data| |] t IH]; intros n this Hfeed Hw Hfed;
    cbn [run step snd ingested payloadBytes forallb feeding andb] in *.
  - now rewrite Z.add_0_r.
  - rewrite Z.add_assoc. destruct Hfed as (Hopen & Hend & Ht).
    apply IH; auto; rewrite onAudioData_spec, Hw; unfold fed; project;
      unfold stream_write; rewrite ?Hend; project; auto with zarith.
  - discriminate.
  - apply IH; auto using fed_ioComplete.
    destruct (ioComplete_fields this) as (-> & _). assumption.
Qed.

(** While a writer is fed, every byte it has counted is either written or
    pending. *)
Lemma conserved_run t : forall this,
  forallb feeding t = true ->
  isOpen (fileDescriptor this) = true ->
  ending (outStream this) = false ->
  totalDataBytes this
  = Z.of_nat (position (fileDescriptor this)
              + length (concat (pending (outStream this)))) ->
  totalDataBytes (run t this)
  = Z.of_nat (position (fileDescriptor (run t this))
              + length (concat (pending (outStream (run t this))))).
Proof.
  induction t as [|[data| |] t IH]; intros this Hfeed Hopen Hend Hcount;
    cbn [run step snd forallb feeding andb] in *.
  - assumption.
  - apply IH; auto; rewrite onAudioData_spec, Hopen;
      (destruct (headerWritten this); [|destruct (frame_ok data)]);
      project; unfold stream_write; rewrite ?Hend; project; auto;
      rewrite concat_app, length_app; cbn [concat]; rewrite app_nil_r; lia.
  - discriminate.
  - unfold ioComplete in *.
    destruct (pending (outStream this)) as [|c rest] eqn:Hp.
    + rewrite Hend. apply IH; auto. now rewrite Hp.
    + rewrite Hopen. apply IH; auto; project; auto.
      cbn [concat] in Hcount. rewrite length_app in Hcount. lia.
Qed.

(** A first frame whose header can be built, then any feeding: the counter is
    the length of all the payload and the format is the first frame's. *)
Lemma first_then_fed path cb first t :
  frame_ok first = true -> forallb feeding t = true ->
  totalDataBytes (run (Ingest first :: t) (constructor path cb))
  = Z.of_nat (length (concat (map payload (first :: ingested t))))
  /\ format (run (Ingest first :: t) (constructor path cb)) = formatOf first.
Proof.
  intros Hok Hfeed. cbn [run step snd].
  assert (Hone : headerWritten (snd (onAudioData first (constructor path cb))) = true
    /\ fed (Z.of_nat (length (payload first)))
         (snd (onAudioData first (constructor path cb)))
    /\ format (snd (onAudioData first (constructor path cb))) = formatOf first).
  { rewrite onAudioData_spec, Hok. cbn [constructor headerWritten fileDescriptor isOpen].
    repeat split. }
  destruct Hone as (Hw & Hfed & Hf).
  destruct (fed_written_run t _ _ Hfeed Hw Hfed) as (_ & _ & Ht).
  destruct (run_latched t _ Hw) as (_ & Hf').
  rewrite Ht, Hf', Hf. split; [|reflexivity].
  change (first :: ingested t) with ([first] ++ ingested t).
  rewrite map_app, concat_app, length_app, payloadBytes_concat.
  cbn [map concat]. rewrite app_nil_r. lia.
Qed.

(** Completions before the first ingest do nothing: a feeding run either has
    ingested nothing and written nothing, or is one that starts with its
    first ingest. *)
Lemma fed_run_shape path cb t :
  forallb feeding t = true ->
  (ingested t = [] /\ onDisk (run t (constructor path cb)) = []
   /\ headerWritten (run t (constructor path cb)) = false)
  \/ (exists first t',
        ingested t = first :: ingested t'
        /\ forallb feeding t' = true
        /\ run t (constructor path cb) = run (Ingest first :: t') (constructor path cb)).
Proof.
  induction t as [|[data| |] t IH]; cbn [forallb feeding andb]; intros Hfeed.
  - left. repeat split.
  - right. exists data, t. repeat split. assumption.
  - discriminate.
  - exact (IH Hfeed).
Qed.



(** * The claims *)

(** C1, as the code has it.  For any interleaving of ingest calls and stream
    completions in which the header of every frame can be built, with payload
    lengths summing to a total of at most 2^32 - 37 bytes, and with no write
    left pending when [cleanup] is called, [cleanup] returns normally and
    the descriptor is closed once the stream has ended.  If the total is at
    least 1, [cleanup] leaves [36 + total] in the ChunkSize field (4 bytes
    little-endian at offset 4) and [total] in the Subchunk2Size field (at
    offset 40), and the fields keep these values while the stream ends.  If
    the total is 0 the guard of [cleanup] skips the backfill and the file
    stays as it was: empty if no frame was ingested, otherwise the header of
    the first frame, with the placeholder 0 in both fields.  (The size of
    the file is the subject of C7.) *)
Theorem C1_declared_sizes path cb t k :
  forallb feeding t = true ->
  forallb frame_ok (ingested t) = true ->
  payloadBytes (ingested t) <= 2 ^ 32 - 37 ->
  let total := payloadBytes (ingested t) in
  let before := run t (constructor path cb) in
  let after := snd (cleanup before) in
  let final := run (repeat IoComplete (S k)) after in
  pending (outStream before) = [] ->
  totalDataBytes before = total
  /\ fst (cleanup before) = Ok tt
  /\ (0 < total ->
      ChunkSize (onDisk after) = 36 + total
      /\ Subchunk2Size (onDisk after) = total
      /\ ChunkSize (onDisk final) = 36 + total
      /\ Subchunk2Size (onDisk final) = total)
  /\ (total = 0 ->
      onDisk after = onDisk before
      /\ onDisk final = onDisk before
      /\ match ingested t with
         | [] => onDisk final = []
         | first :: _ =>
             onDisk final = wavLayout (channelCount first) (sampleRate first)
                              (bitsPerSample first)
             /\ ChunkSize (onDisk final) = 0
             /\ Subchunk2Size (onDisk final) = 0
         end)
  /\ isOpen (fileDescriptor final) = false.
Proof.
  intros Hfeed Hok Htotal total before after final Hidle.
  destruct (fed_run t 0 (constructor path cb) Hfeed Hok (fed_new path cb))
    as (Hopen & Hend & Hcount).
  fold before in Hopen, Hend, Hcount. rewrite Z.add_0_l in Hcount. fold total in Hcount.
  assert (Hcons : consistent before)
    by (apply consistent_run, consistent_new).
  destruct Hcons as [Hno Hyes].
  assert (Hfit : fitsU 4 (36 + total) = true).
  { apply fitsU_intro. change (2 ^ (8 * Z.of_nat 4) - 1) with (2 ^ 32 - 1).
    pose proof (payloadBytes_concat (ingested t)). unfold total. lia. }
  (* what [cleanup] does in the two cases *)
  assert (Hclean : cleanup before =
    (Ok tt,
     if headerWritten before && (0 <? total) then
       set_outStream stream_end
         (set_fileDescriptor (pwrite (le_bytes 4 total) 40)
            (set_fileDescriptor (pwrite (le_bytes 4 (36 + total)) 4) before))
     else set_outStream stream_end before)).
  { rewrite cleanup_spec, Hopen, Hcount, Hfit.
    destruct (headerWritten before && (0 <? total)); reflexivity. }
  assert (Hidle' : pending (outStream after) = []).
  { unfold after. rewrite Hclean. cbn [snd].
    destruct (headerWritten before && (0 <? total)); exact Hidle. }
  assert (Hend' : ending (outStream after) = true).
  { unfold after. rewrite Hclean. cbn [snd].
    destruct (headerWritten before && (0 <? total)); reflexivity. }
  destruct (run_idle (S k) after Hidle') as (Hd & _ & _ & Hclosed).
  fold final in Hd, Hclosed. rewrite Hd, Hclosed, Hend', andb_false_r.
  split; [assumption|]. split; [now rewrite Hclean|].
  split; [|split; [|reflexivity]].
  - (* data was counted: the backfill ran *)
    intros Hpos.
    assert (Hw : headerWritten before = true).
    { destruct (headerWritten before); [reflexivity|].
      destruct (Hno eq_refl) as (_ & _ & H0). lia. }
    specialize (Hyes Hw).
    destruct (backfilled_sizes total (onDisk before) Hyes) as [Hchunk Hsub];
      [unfold total in *; lia .. |].
    assert (Hafter : onDisk after =
      store (le_bytes 4 total) 40
        (store (le_bytes 4 (36 + total)) 4 (onDisk before))).
    { unfold after. rewrite Hclean, Hw.
      replace (0 <? total) with true by (symmetry; now apply Z.ltb_lt).
      reflexivity. }
    rewrite Hafter. auto.
  - (* nothing was counted: the file is empty or holds the untouched header *)
    intros Hzero.
    assert (Hafter : onDisk after = onDisk before).
    { unfold after. rewrite Hclean, Hzero, andb_false_r. reflexivity. }
    rewrite Hafter. split; [reflexivity|]. split; [reflexivity|].
    destruct (fed_run_shape path cb t Hfeed)
      as [(Hnone & Hempty & _) | (first & t' & Hing & Hfeed' & Hrun)].
    + rewrite Hnone. exact Hempty.
    + assert (Hfirst : frame_ok first = true).
      { rewrite Hing in Hok. cbn [forallb] in Hok.
        now apply andb_true_iff in Hok. }
      assert (Hidle0 : pending (outStream
                (run (Ingest first :: t') (constructor path cb))) = [])
        by (rewrite <- Hrun; exact Hidle).
      destruct (drained_file path cb first t' Hfirst Hfeed' Hidle0) as (Hdisk & _).
      rewrite <- Hrun in Hdisk. fold before in Hdisk.
      assert (Hall : concat (map payload (first :: ingested t')) = []).
      { apply length_zero_iff_nil. apply Nat2Z.inj.
        rewrite <- payloadBytes_concat, <- Hing. exact Hzero. }
      rewrite Hall in Hdisk. cbn [length skipn app] in Hdisk.
      rewrite Hing, Hdisk.
      unfold frame_ok in Hfirst.
      destruct (wavLayout_fields _ _ _ Hfirst)
        as (_ & _ & Hchunk & _ & _ & _ & _ & _ & _ & _ & _ & _ & _ & Hsub).
      auto.
Qed.

(** The scenario of the specification: one frame of 100 16-bit samples at
    16 kHz mono gives Subchunk2Size 200 and ChunkSize 236. *)
Lemma C1_declared_sizes_witness :
  let before := run [Ingest (mono16k (repeat x01 200)); IoComplete]
                  (constructor defaultOutputPath None) in
  let final := run (repeat IoComplete 1) (snd (cleanup before)) in
  totalDataBytes before = 200
  /\ fst (cleanup before) = Ok tt
  /\ (0 < 200 ->
      ChunkSize (onDisk (snd (cleanup before))) = 236
      /\ Subchunk2Size (onDisk (snd (cleanup before))) = 200
      /\ ChunkSize (onDisk final) = 236
      /\ Subchunk2Size (onDisk final) = 200)
  /\ (200 = 0 ->
      onDisk (snd (cleanup before)) = onDisk before
      /\ onDisk final = onDisk before
      /\ onDisk final = wavLayout 1 16000 16
      /\ ChunkSize (onDisk final) = 0
      /\ Subchunk2Size (onDisk final) = 0)
  /\ isOpen (fileDescriptor final) = false.
Proof.
  apply (C1_declared_sizes defaultOutputPath None
           [Ingest (mono16k (repeat x01 200)); IoComplete] 0).
  - reflexivity.
  - reflexivity.
  - vm_compute. discriminate.
  - reflexivity.
Defined.

(** C1 fails as stated: one frame with an empty payload is ingested and the
    writer is finalized; the header is on disk and its ChunkSize field holds
    the placeholder 0, not 36. *)
Lemma C1_counterexample :
  let frames := [mono16k []] in
  let final :=
    settle (run (map Ingest frames ++ [Finalize])
              (constructor defaultOutputPath None)) in
  ~ (ChunkSize (onDisk final) = 36 + payloadBytes frames
     /\ Subchunk2Size (onDisk final) = payloadBytes frames
     /\ Z.of_nat (length (onDisk final)) = 44 + payloadBytes frames).
Proof. vm_compute. intros [H _]. discriminate H. Qed.

(** C2, as the code has it.  [cleanup] has no finalized flag.  If the first
    call returned normally and either the second follows it directly or no
    write was pending at the first, then the second call leaves the bytes on
    disk and the whole writer state exactly as the first left them; it
    repeats the backfill, so it throws EBADF when there are sizes to store
    and the descriptor has been closed in between, and returns normally
    otherwise. *)
Theorem C2_finalize_twice this k :
  k = 0%nat \/ pending (outStream this) = [] ->
  fst (cleanup this) = Ok tt ->
  let once := run (repeat IoComplete k) (snd (cleanup this)) in
  snd (cleanup once) = once
  /\ onDisk (snd (cleanup once)) = onDisk (snd (cleanup this))
  /\ fst (cleanup once) =
     if headerWritten this && (0 <? totalDataBytes this)
        && negb (isOpen (fileDescriptor once))
     then Throw EBADF else Ok tt.
Proof.
  intros Hk Hfirst once.
  pose proof (cleanup_finalizes this Hfirst) as Hfin.
  assert (Hsame : headerWritten (snd (cleanup this)) = headerWritten this
                  /\ totalDataBytes (snd (cleanup this)) = totalDataBytes this
                  /\ pending (outStream (snd (cleanup this))) = pending (outStream this)).
  { rewrite cleanup_spec.
    destruct (headerWritten this && (0 <? totalDataBytes this));
      [destruct (fitsU 4 (36 + totalDataBytes this));
       [destruct (isOpen (fileDescriptor this))|]|]; project; auto. }
  destruct Hsame as (Hw & Ht & Hq).
  assert (Honce : once = snd (cleanup this)
                  \/ once = set_fileDescriptor close (snd (cleanup this))).
  { unfold once. destruct k as [|k]; [now left|]. right.
    destruct Hk as [Hk|Hk]; [discriminate|].
    apply run_idle_ended; [congruence | apply Hfin]. }
  assert (Hfin' : finalized once) by (destruct Honce as [-> | ->]; exact Hfin).
  destruct (cleanup_finalized once Hfin') as [Hstate Hout].
  split; [assumption|]. rewrite Hstate. 
  split; [destruct Honce as [-> | ->]; reflexivity|].
  rewrite Hout. destruct Honce as [-> | ->]; project; now rewrite Hw, Ht.
Qed.

Lemma C2_finalize_twice_witness :
  let this := run [Ingest F1; IoComplete] (constructor defaultOutputPath None) in
  let once := run (repeat IoComplete 1) (snd (cleanup this)) in
  snd (cleanup once) = once
  /\ onDisk (snd (cleanup once)) = onDisk (snd (cleanup this))
  /\ fst (cleanup once) =
     if headerWritten this && (0 <? totalDataBytes this)
        && negb (isOpen (fileDescriptor once))
     then Throw EBADF else Ok tt.
Proof.
  apply (C2_finalize_twice
           (run [Ingest F1; IoComplete] (constructor defaultOutputPath None)) 1).
  - right. reflexivity.
  - reflexivity.
Defined.

(** C2 fails as stated: a frame is ingested and written, the writer is
    finalized and the stream closes the descriptor; the second [cleanup] does
    not return, it throws EBADF from the repeated backfill. *)
Lemma C2_counterexample :
  let finalizedOnce :=
    run [Ingest F1; IoComplete; Finalize; IoComplete]
      (constructor defaultOutputPath None) in
  fst (cleanup finalizedOnce) = Throw EBADF.
Proof. reflexivity. Qed.

(** C3, as the code has it.  [onAudioData] does not check whether the writer
    was finalized and there is no InvalidStateError.  Once finalize has
    completed (stream ended and drained, descriptor closed) a further ingest
    never touches the file or the stream: the closed stream refuses the
    payload without a trace, nothing is queued and no error is recorded.  If
    a header had been written the call runs to its end: [totalDataBytes] is
    still incremented by the payload length, and the outcome is that of the
    forwarding callback.  If no header had been written the call throws from
    the header write (EBADF, or the RangeError of a format that does not
    fit) and the counter is unchanged. *)
Theorem C3_ingest_after_finalize data this :
  ending (outStream this) = true ->
  pending (outStream this) = [] ->
  isOpen (fileDescriptor this) = false ->
  let r := onAudioData data this in
  fileDescriptor (snd r) = fileDescriptor this
  /\ outStream (snd r) = outStream this
  /\ pending (outStream (snd r)) = []
  /\ (headerWritten this = true ->
      fst r = forward data this
      /\ totalDataBytes (snd r)
         = totalDataBytes this + Z.of_nat (length (payload data)))
  /\ (headerWritten this = false ->
      fst r = Throw (if frame_ok data then EBADF else ERR_OUT_OF_RANGE "value")
      /\ totalDataBytes (snd r) = totalDataBytes this
      /\ headerWritten (snd r) = false).
Proof.
  intros Hend Hq Hclosed r. unfold r. rewrite onAudioData_spec, Hclosed.
  destruct (headerWritten this) eqn:Hw.
  - project. rewrite Hclosed. unfold stream_write. rewrite Hend. cbn [negb].
    repeat split; auto; discriminate.
  - destruct (frame_ok data); project; repeat split; auto; discriminate.
Qed.

Lemma C3_ingest_after_finalize_witness :
  let this := run [Ingest F1; IoComplete; Finalize; IoComplete]
                (constructor defaultOutputPath None) in
  let r := onAudioData F2 this in
  fileDescriptor (snd r) = fileDescriptor this
  /\ outStream (snd r) = outStream this
  /\ pending (outStream (snd r)) = []
  /\ (headerWritten this = true ->
      fst r = forward F2 this
      /\ totalDataBytes (snd r)
         = totalDataBytes this + Z.of_nat (length (payload F2)))
  /\ (headerWritten this = false ->
      fst r = Throw (if frame_ok F2 then EBADF else ERR_OUT_OF_RANGE "value")
      /\ totalDataBytes (snd r) = totalDataBytes this
      /\ headerWritten (snd r) = false).
Proof.
  apply (C3_ingest_after_finalize F2
           (run [Ingest F1; IoComplete; Finalize; IoComplete]
              (constructor defaultOutputPath None)));
    reflexivity.
Defined.

(** C3 fails as stated: after a completed finalize (8 payload bytes, file
    closed) a further ingest of 4 bytes raises nothing, it returns normally,
    and the byte counter moves from 8 to 12. *)
Lemma C3_counterexample :
  let this := run [Ingest F1; IoComplete; Finalize; IoComplete]
                (constructor defaultOutputPath None) in
  isOpen (fileDescriptor this) = false
  /\ totalDataBytes this = 8
  /\ fst (onAudioData F2 this) = Ok tt
  /\ totalDataBytes (snd (onAudioData F2 this)) = 12.
Proof. repeat split. Qed.

(** C4, as the code has it.  The callback is called last and nothing catches
    what it throws.  On a writer that is open and not ended, for a frame that
    gets past the header: the payload has been queued behind the chunks
    already pending, it is on disk once the stream has drained (at the
    descriptor's offset plus the length of what was pending before it),
    [totalDataBytes] has been incremented by the payload length, and the
    callback's exception is the outcome of the ingest call. *)
Theorem C4_callback_throws data this callback e :
  onAudioCallback this = Some callback ->
  callback (samples data) (userId data) = Throw e ->
  isOpen (fileDescriptor this) = true ->
  ending (outStream this) = false ->
  headerWritten this = true \/ frame_ok data = true ->
  let r := onAudioData data this in
  fst r = Throw e
  /\ pending (outStream (snd r)) = pending (outStream this) ++ [payload data]
  /\ totalDataBytes (snd r)
     = totalDataBytes this + Z.of_nat (length (payload data))
  /\ slice (position (fileDescriptor this)
            + length (concat (pending (outStream this))))
       (length (payload data)) (onDisk (settle (snd r))) = payload data.
Proof.
  intros Hcb Hthrow Hopen Hend Hpast r.
  assert (Hr : fst r = Throw e
    /\ pending (outStream (snd r)) = pending (outStream this) ++ [payload data]
    /\ totalDataBytes (snd r)
       = totalDataBytes this + Z.of_nat (length (payload data))
    /\ isOpen (fileDescriptor (snd r)) = true
    /\ position (fileDescriptor (snd r)) = position (fileDescriptor this)).
  { unfold r. rewrite onAudioData_spec, Hopen.
    assert (Hfwd : forward data this = Throw e)
      by (unfold forward; now rewrite Hcb).
    destruct (headerWritten this) eqn:Hw.
    - project. unfold stream_write. rewrite Hend. project. auto.
    - destruct Hpast as [Hpast | Hok]; [discriminate|]. rewrite Hok.
      project. unfold stream_write. rewrite Hend. project. auto. }
  destruct Hr as (Hout & Hq & Ht & Hopen' & Hpos).
  repeat split; try assumption.
  rewrite <- Hpos. now apply settle_last_chunk.
Qed.

Lemma C4_callback_throws_witness :
  let this := constructor defaultOutputPath (Some failingCallback) in
  let r := onAudioData F1 this in
  fst r = Throw (Thrown "forwarding failed")
  /\ pending (outStream (snd r)) = pending (outStream this) ++ [payload F1]
  /\ totalDataBytes (snd r)
     = totalDataBytes this + Z.of_nat (length (payload F1))
  /\ slice (position (fileDescriptor this)
            + length (concat (pending (outStream this))))
       (length (payload F1)) (onDisk (settle (snd r))) = payload F1.
Proof.
  apply (C4_callback_throws F1
           (constructor defaultOutputPath (Some failingCallback))
           failingCallback (Thrown "forwarding failed")).
  - reflexivity.
  - reflexivity.
  - reflexivity.
  - reflexivity.
  - right. reflexivity.
Defined.

(** C4 fails as stated: with a forwarding callback that throws, the ingest
    call does not return, the callback's exception comes out of it. *)
Lemma C4_counterexample :
  fst (onAudioData F1 (constructor defaultOutputPath (Some failingCallback)))
  = Throw (Thrown "forwarding failed").
Proof. reflexivity. Qed.

(** C5.  In every reachable state in which no header has been written
    ([headerWritten] is false), [cleanup] returns normally, writes nothing
    and ends the stream: the file is empty when it returns, and it is still
    empty, with the descriptor closed, once the stream has drained. *)
Theorem C5_finalize_without_frames cb this :
  reachable cb this ->
  headerWritten this = false ->
  let r := cleanup this in
  fst r = Ok tt
  /\ onDisk (snd r) = []
  /\ ending (outStream (snd r)) = true
  /\ onDisk (settle (snd r)) = []
  /\ isOpen (fileDescriptor (settle (snd r))) = false.
Proof.
  intros Hreach Hw r.
  destruct (reachable_consistent cb this Hreach) as [Hno _].
  destruct (Hno Hw) as (Hdisk & Hq & _).
  assert (Hr : r = (Ok tt, set_outStream stream_end this))
    by (unfold r; now rewrite cleanup_spec, Hw).
  rewrite Hr. cbn [fst snd].
  destruct (settle_idle (set_outStream stream_end this)) as [Hd Hopen];
    [project; assumption|].
  rewrite Hd, Hopen. project. rewrite andb_false_r. auto.
Qed.

Lemma C5_finalize_without_frames_witness :
  let r := cleanup (constructor defaultOutputPath None) in
  fst r = Ok tt
  /\ onDisk (snd r) = []
  /\ ending (outStream (snd r)) = true
  /\ onDisk (settle (snd r)) = []
  /\ isOpen (fileDescriptor (settle (snd r))) = false.
Proof.
  apply (C5_finalize_without_frames None (constructor defaultOutputPath None)).
  - apply reachable_new.
  - reflexivity.
Defined.

(** C6.  For a first frame whose format fits the header's fields, the 44
    bytes [writeWavHeaderPlaceholder] builds are the bytes on disk when the
    first [onAudioData] returns, and they have the documented layout: 'RIFF'
    at 0, ChunkSize 0 at 4, 'WAVE' at 8, 'fmt ' at 12, Subchunk1Size 16 at
    16, AudioFormat 1 at 20, the channel count at 22, the sample rate at 24,
    ByteRate = sampleRate * channelCount * bitsPerSample / 8 at 28,
    BlockAlign = channelCount * bitsPerSample / 8 at 32, the bits per sample
    at 34, 'data' at 36 and Subchunk2Size 0 at 40, every integer unsigned
    little-endian ([/] is the integer quotient: a fractional value is
    truncated when it is stored).  The witness is the format 48000/16/2, with
    ByteRate 192000 and BlockAlign 4. *)
Theorem C6_header_layout path cb data :
  frame_ok data = true ->
  let channels := channelCount data in
  let rate := sampleRate data in
  let bits := bitsPerSample data in
  let file := onDisk (snd (onAudioData data (constructor path cb))) in
  wavHeader channels rate bits = Ok file
  /\ length file = 44%nat
  /\ slice 0 4 file = String.list_byte_of_string "RIFF"
  /\ ChunkSize file = 0
  /\ slice 8 4 file = String.list_byte_of_string "WAVE"
  /\ slice 12 4 file = String.list_byte_of_string "fmt "
  /\ field 4 16 file = 16
  /\ field 2 20 file = 1
  /\ field 2 22 file = channels
  /\ field 4 24 file = rate
  /\ field 4 28 file = rate * channels * bits / 8
  /\ field 2 32 file = channels * bits / 8
  /\ field 2 34 file = bits
  /\ slice 36 4 file = String.list_byte_of_string "data"
  /\ Subchunk2Size file = 0.
Proof.
  intros Hok channels rate bits file.
  assert (Hfile : file = wavLayout channels rate bits).
  { unfold file. rewrite onAudioData_spec, Hok. cbn [constructor headerWritten fileDescriptor isOpen].
    project. apply store_empty. }
  rewrite Hfile. split.
  - rewrite wavHeader_spec. unfold frame_ok in Hok. fold channels rate bits in Hok.
    now rewrite Hok.
  - now apply wavLayout_fields.
Qed.

Lemma C6_header_layout_witness :
  let file := onDisk (snd (onAudioData F1 (constructor defaultOutputPath None))) in
  wavHeader 2 48000 16 = Ok file
  /\ length file = 44%nat
  /\ slice 0 4 file = String.list_byte_of_string "RIFF"
  /\ ChunkSize file = 0
  /\ slice 8 4 file = String.list_byte_of_string "WAVE"
  /\ slice 12 4 file = String.list_byte_of_string "fmt "
  /\ field 4 16 file = 16
  /\ field 2 20 file = 1
  /\ field 2 22 file = 2
  /\ field 4 24 file = 48000
  /\ field 4 28 file = 192000
  /\ field 2 32 file = 4
  /\ field 2 34 file = 16
  /\ slice 36 4 file = String.list_byte_of_string "data"
  /\ Subchunk2Size file = 0.
Proof.
  apply (C6_header_layout defaultOutputPath None F1). reflexivity.
Defined.

(** C7, evaluated on the example of the specification.  F1 (8 bytes) and F2
    (4 bytes) are ingested and written by the stream.  The header was stored with a
    positional write, which leaves the descriptor's offset at 0, and the
    stream writes at the descriptor's offset: the payloads are in call order
    and adjacent, but they start at offset 0, over the first 12 bytes of the
    header.  The file is 44 bytes long, before and after finalize, and holds
    nothing from offset 44 on.  [drained_file] has the general statement. *)
Theorem C7_payload_lands_on_header :
  let written :=
    run [Ingest F1; Ingest F2; IoComplete; IoComplete]
      (constructor defaultOutputPath None) in
  let final := settle (snd (cleanup written)) in
  onDisk written = payload F1 ++ payload F2 ++ skipn 12 (wavLayout 2 48000 16)
  /\ slice 0 12 (onDisk final)
     = firstn 4 (payload F1) ++ le_bytes 4 48 ++ payload F2
  /\ length (onDisk final) = 44%nat
  /\ slice 44 12 (onDisk final) = [].
Proof. repeat split. Qed.

(** C8, as the code has it.  The format fields are plain numbers, assigned
    just before the header is written and never guarded afterwards.  For any
    run of a writer whose frames carry a format other than 0/0/0:
    - a written header implies that the format is set;
    - if no ingest call failed while writing the header, the format is set
      if and only if [headerWritten] is true;
    - once [headerWritten] is true, no later event, whatever format its
      frame carries, changes the three fields or [headerWritten]. *)
Theorem C8_format_latched path cb t :
  forallb nonzeroFormat (ingested t) = true ->
  let this := run t (constructor path cb) in
  (headerWritten this = true -> formatSet this = true)
  /\ (headerWritesSucceed t (constructor path cb) = true ->
      formatSet this = headerWritten this)
  /\ (headerWritten this = true ->
      forall later,
        headerWritten (run later this) = true
        /\ format (run later this) = format this).
Proof.
  intros Hnz this. split; [|split].
  - apply latched_set_run; [assumption | discriminate].
  - intros Hok. now apply set_iff_latched_run.
  - intros Hw later. now apply run_latched.
Qed.

Lemma C8_format_latched_witness :
  let this := run [Ingest F1; Ingest (mono16k [x01; x02])]
                (constructor defaultOutputPath None) in
  (headerWritten this = true -> formatSet this = true)
  /\ (headerWritesSucceed [Ingest F1; Ingest (mono16k [x01; x02])]
        (constructor defaultOutputPath None) = true ->
      formatSet this = headerWritten this)
  /\ (headerWritten this = true ->
      forall later,
        headerWritten (run later this) = true
        /\ format (run later this) = format this).
Proof.
  apply (C8_format_latched defaultOutputPath None
           [Ingest F1; Ingest (mono16k [x01; x02])]).
  reflexivity.
Defined.

(** C8 fails as stated: a first frame of 48 kHz, 16 bits and 65535 channels
    has a byte rate that does not fit the header's 32-bit field; the format
    fields have been assigned when the header write throws, so the state
    reached has the format set and [headerWritten] false. *)
Lemma C8_counterexample :
  let this := run [Ingest (frameOf 16 48000 65535 [])]
                (constructor defaultOutputPath None) in
  reachable None this
  /\ format this = (48000, 16, 65535)
  /\ formatSet this = true
  /\ headerWritten this = false.
Proof.
  split; [|repeat split].
  apply reachable_run, reachable_new.
Qed.

(** C9, as the code has it.  [cleanup] calls [outStream.end()] as its last
    statement and has no handler around the backfill.  Whenever it returns
    normally the stream is ended and, once the stream has drained, the
    descriptor is closed; it returns normally if no header was written or no
    byte was counted (also after an ingest that failed), and if the sizes fit
    32 bits and the descriptor is open.  When the backfill throws (the RIFF
    size exceeds 32 bits, or the descriptor is already closed) the exception
    leaves [cleanup] before [end()] is reached and the state is as it was. *)
Theorem C9_finalize_releases this :
  let r := cleanup this in
  (fst r = Ok tt ->
   ending (outStream (snd r)) = true
   /\ isOpen (fileDescriptor (settle (snd r))) = false)
  /\ (headerWritten this = false \/ totalDataBytes this <= 0 -> fst r = Ok tt)
  /\ (0 < totalDataBytes this <= 2 ^ 32 - 37 ->
      isOpen (fileDescriptor this) = true -> fst r = Ok tt)
  /\ (forall e, fst r = Throw e ->
      snd r = this
      /\ headerWritten this = true
      /\ (e = ERR_OUT_OF_RANGE "value" /\ 2 ^ 32 - 37 < totalDataBytes this
          \/ e = EBADF /\ isOpen (fileDescriptor this) = false)).
Proof.
  intros r.
  assert (Hret : fst r = Ok tt -> ending (outStream (snd r)) = true).
  { unfold r. rewrite cleanup_spec.
    destruct (headerWritten this && (0 <? totalDataBytes this));
      [destruct (fitsU 4 (36 + totalDataBytes this));
       [destruct (isOpen (fileDescriptor this))|]|];
      project; auto; discriminate. }
  split; [|split; [|split]].
  - intros Hok. split; [auto | apply settle_closes; auto].
  - unfold r. rewrite cleanup_spec. intros [-> | Hzero]; [reflexivity|].
    replace (0 <? totalDataBytes this) with false
      by (symmetry; apply Z.ltb_ge; lia).
    now rewrite andb_false_r.
  - intros Htotal Hopen. unfold r. rewrite cleanup_spec, Hopen.
    rewrite fitsU_intro
      by (change (2 ^ (8 * Z.of_nat 4) - 1) with (2 ^ 32 - 1); lia).
    destruct (headerWritten this && (0 <? totalDataBytes this)); reflexivity.
  - intros e. unfold r. rewrite cleanup_spec.
    destruct (headerWritten this) eqn:Hw; cbn [andb]; [|discriminate].
    destruct (0 <? totalDataBytes this) eqn:Hpos; [|discriminate].
    apply Z.ltb_lt in Hpos.
    destruct (fitsU 4 (36 + totalDataBytes this)) eqn:Hfit.
    + destruct (isOpen (fileDescriptor this)); [discriminate|].
      cbn [fst snd]. intros He; injection He as <-. auto.
    + cbn [fst snd]. intros He; injection He as <-.
      split; [reflexivity|]. split; [reflexivity|]. left. split; [reflexivity|].
      unfold fitsU in Hfit. apply andb_false_iff in Hfit.
      change (2 ^ (8 * Z.of_nat 4) - 1) with (2 ^ 32 - 1) in Hfit.
      rewrite !Z.leb_gt in Hfit. lia.
Qed.

Lemma C9_finalize_releases_witness :
  let this := run [Ingest F1; IoComplete] (constructor defaultOutputPath None) in
  ending (outStream (snd (cleanup this))) = true
  /\ isOpen (fileDescriptor (settle (snd (cleanup this)))) = false.
Proof.
  apply (proj1 (C9_finalize_releases
                  (run [Ingest F1; IoComplete] (constructor defaultOutputPath None)))).
  reflexivity.
Defined.

(** C9 fails as stated: four frames of one GiB each bring the counter to
    2^32 bytes; the RIFF size no longer fits its 32-bit field, the backfill
    throws a RangeError, [outStream.end()] is never called, and the
    descriptor is still open after the stream has written everything. *)
Lemma C9_counterexample :
  let this := run [Ingest gibFrame; Ingest gibFrame; Ingest gibFrame; Ingest gibFrame]
                (constructor defaultOutputPath None) in
  let r := cleanup this in
  totalDataBytes this = 2 ^ 32
  /\ fst r = Throw (ERR_OUT_OF_RANGE "value")
  /\ ending (outStream (snd r)) = false
  /\ isOpen (fileDescriptor (settle (snd r))) = true.
Proof.
  intros this r.
  assert (Hfed : fed (2 ^ 32) this).
  { replace (2 ^ 32) with (0 + payloadBytes (ingested
      [Ingest gibFrame; Ingest gibFrame; Ingest gibFrame; Ingest gibFrame])).
    - apply fed_run; [reflexivity | reflexivity | apply fed_new].
    - cbn [ingested payloadBytes]. change (payload gibFrame) with oneGiB.
      rewrite length_oneGiB. reflexivity. }
  assert (Hw : headerWritten this = true).
  { destruct (consistent_run
                [Ingest gibFrame; Ingest gibFrame; Ingest gibFrame; Ingest gibFrame]
                _ (consistent_new defaultOutputPath None)) as [Hno _].
    fold this in Hno. destruct (headerWritten this); [reflexivity|].
    destruct (Hno eq_refl) as (_ & _ & H0).
    destruct Hfed as (_ & _ & Ht). rewrite Ht in H0. discriminate H0. }
  assert (Hr : r = (Throw (ERR_OUT_OF_RANGE "value"), this)).
  { unfold r. rewrite cleanup_spec, Hw.
    destruct Hfed as (_ & _ & ->). reflexivity. }
  rewrite Hr. cbn [fst snd].
  destruct (fed_completions (S (length (pending (outStream this)))) _ _ Hfed)
    as (Hopen & _ & _).
  destruct Hfed as (_ & Hend & Ht). auto.
Qed.

(** C10, evaluated.  The same single frame F1 is fed to two writers built
    without a callback and both are finalized; on the first the stream has
    written the frame before [cleanup] runs, on the second it writes it
    afterwards.  The writers end with the same fields, but the payload lies
    on the header from offset 0, so on the second the late write replaces
    the backfilled ChunkSize with payload bytes 5 to 8: the two files
    differ. *)
Theorem C10_same_frames_different_files :
  let late := settle (run [Ingest F1; IoComplete; Finalize]
                        (constructor defaultOutputPath None)) in
  let early := settle (run [Ingest F1; Finalize]
                         (constructor defaultOutputPath None)) in
  headerWritten late = headerWritten early
  /\ totalDataBytes late = totalDataBytes early
  /\ format late = format early
  /\ slice 4 4 (onDisk late) = le_bytes 4 44
  /\ slice 4 4 (onDisk early) = [x05; x06; x07; x08]
  /\ onDisk late <> onDisk early.
Proof. vm_compute. repeat split. discriminate. Qed.

(** * Further properties of the writer *)

(** ** The counter *)

(** X1.  While a writer is fed with frames whose header can be built,
    [totalDataBytes] is the sum of the payload lengths of the frames ingested
    so far, whatever part of them the stream has written, and
    [headerWritten] tells whether a frame has been ingested. *)
Theorem X1_counter_is_payload_sum path cb t :
  forallb feeding t = true ->
  forallb frame_ok (ingested t) = true ->
  let this := run t (constructor path cb) in
  totalDataBytes this = payloadBytes (ingested t)
  /\ headerWritten this = match ingested t with [] => false | _ :: _ => true end.
Proof.
  intros Hfeed Hok this. split.
  - destruct (fed_run t 0 _ Hfeed Hok (fed_new path cb)) as (_ & _ & Ht).
    exact Ht.
  - unfold this. now rewrite (written_fed_run t 0 _ Hfeed Hok (fed_new path cb)).
Qed.

Lemma X1_counter_is_payload_sum_witness :
  let this := run [Ingest F1; IoComplete; Ingest F2]
                (constructor defaultOutputPath None) in
  totalDataBytes this = 12 /\ headerWritten this = true.
Proof.
  apply (X1_counter_is_payload_sum defaultOutputPath None
           [Ingest F1; IoComplete; Ingest F2]); reflexivity.
Defined.

(** X2.  At every moment while a writer is fed after a first frame whose
    header could be built, the counter is the length of all the payload
    handed to [onAudioData], the stream has written no more than that, and
    what it has written is the beginning of that payload, in call order: the
    file is the first [offset] payload bytes followed by the header from
    [offset] on, [offset] being the descriptor's file offset. *)
Theorem X2_written_is_prefix_of_counted path cb first t :
  frame_ok first = true ->
  forallb feeding t = true ->
  let this := run (Ingest first :: t) (constructor path cb) in
  let all := concat (map payload (first :: ingested t)) in
  let header := wavLayout (channelCount first) (sampleRate first)
                  (bitsPerSample first) in
  let offset := position (fileDescriptor this) in
  totalDataBytes this = Z.of_nat (length all)
  /\ (offset <= length all)%nat
  /\ onDisk this = firstn offset all ++ skipn offset header.
Proof.
  intros Hok Hfeed this all header offset.
  destruct (first_then_fed path cb first t Hok Hfeed) as (Htotal & _).
  split; [exact Htotal|].
  assert (Hstream :
    (position (fileDescriptor this) <= length all)%nat
    /\ onDisk this = store (firstn (position (fileDescriptor this)) all) 0 header
    /\ concat (pending (outStream this))
       = skipn (position (fileDescriptor this)) all).
  { unfold this, all. cbn [run step snd map concat].
    apply (streamed_run header t (payload first)); try assumption;
      rewrite ?onAudioData_spec; cbn [constructor headerWritten fileDescriptor isOpen];
      rewrite ?Hok; project; try reflexivity.
    - repeat split.
    - cbn [constructor fileDescriptor position]. lia.
    - cbn [constructor outStream fileDescriptor position isOpen negb
           stream_write ending pending app concat skipn].
      now rewrite app_nil_r. }
  destruct Hstream as (Hpos & Hdisk & _). fold offset in Hpos, Hdisk.
  split; [exact Hpos|].
  rewrite Hdisk. unfold store. cbn [firstn Nat.sub repeat app Nat.add].
  rewrite length_firstn. do 2 f_equal. lia.
Qed.

Lemma X2_written_is_prefix_of_counted_witness :
  let this := run [Ingest F1; Ingest F2; IoComplete]
                (constructor defaultOutputPath None) in
  totalDataBytes this = 12
  /\ (position (fileDescriptor this) <= 12)%nat
  /\ onDisk this
     = firstn (position (fileDescriptor this)) (payload F1 ++ payload F2)
       ++ skipn (position (fileDescriptor this)) (wavLayout 2 48000 16).
Proof.
  apply (X2_written_is_prefix_of_counted defaultOutputPath None F1
           [Ingest F2; IoComplete]); reflexivity.
Defined.

(** ** The file *)

(** X3.  Once the stream has written everything handed to it, the file holds
    the payloads of all ingested frames, adjacent and in call order, from
    offset 0, followed by what they leave of the 44-byte header of the first
    frame; its length is the larger of 44 and the total payload length, and
    the descriptor's offset stands at the end of the payload. *)
Theorem X3_payload_in_call_order path cb first t :
  frame_ok first = true ->
  forallb feeding t = true ->
  let this := run (Ingest first :: t) (constructor path cb) in
  let all := concat (map payload (first :: ingested t)) in
  let header := wavLayout (channelCount first) (sampleRate first)
                  (bitsPerSample first) in
  pending (outStream this) = [] ->
  onDisk this = all ++ skipn (length all) header
  /\ length (onDisk this) = Nat.max 44 (length all)
  /\ position (fileDescriptor this) = length all.
Proof.
  intros Hok Hfeed this all header Hidle.
  destruct (drained_file path cb first t Hok Hfeed Hidle) as (Hdisk & Hlen).
  fold this all header in Hdisk, Hlen.
  split; [assumption|]. split; [assumption|].
  destruct (first_then_fed path cb first t Hok Hfeed) as (Htotal & _).
  fold this all in Htotal.
  assert (Hcount : totalDataBytes this
                   = Z.of_nat (position (fileDescriptor this)
                               + length (concat (pending (outStream this)))))
    by (apply conserved_run; cbn [forallb feeding andb]; auto).
  rewrite Hidle in Hcount. cbn [concat length] in Hcount. lia.
Qed.

Lemma X3_payload_in_call_order_witness :
  let this := run [Ingest F1; IoComplete; Ingest F2; IoComplete]
                (constructor defaultOutputPath None) in
  onDisk this
  = (payload F1 ++ payload F2) ++ skipn 12 (wavLayout 2 48000 16)
  /\ length (onDisk this) = 44%nat
  /\ position (fileDescriptor this) = 12%nat.
Proof.
  apply (X3_payload_in_call_order defaultOutputPath None F1
           [IoComplete; Ingest F2; IoComplete]); reflexivity.
Defined.

(** X4.  A first ingest whose format does not fit the header throws the
    RangeError of [writeUInt16LE]/[writeUInt32LE]; it has latched the format
    but written, queued and counted nothing and [headerWritten] is still
    false, so the next ingest starts over: with a format that fits, on an
    open descriptor, it latches its own format and writes its own header. *)
Theorem X4_failed_header_is_retried data next this :
  headerWritten this = false ->
  frame_ok data = false ->
  let r := onAudioData data this in
  fst r = Throw (ERR_OUT_OF_RANGE "value")
  /\ fileDescriptor (snd r) = fileDescriptor this
  /\ outStream (snd r) = outStream this
  /\ totalDataBytes (snd r) = totalDataBytes this
  /\ headerWritten (snd r) = false
  /\ format (snd r) = formatOf data
  /\ (frame_ok next = true -> isOpen (fileDescriptor this) = true ->
      let r' := onAudioData next (snd r) in
      headerWritten (snd r') = true
      /\ format (snd r') = formatOf next
      /\ onDisk (snd r')
         = store (wavLayout (channelCount next) (sampleRate next)
                    (bitsPerSample next)) 0 (onDisk this)).
Proof.
  intros Hw Hbad r.
  assert (Hr : r = (Throw (ERR_OUT_OF_RANGE "value"), latchFormat data this))
    by (unfold r; now rewrite onAudioData_spec, Hw, Hbad).
  rewrite Hr. cbn [fst snd]. unfold format, formatOf. project.
  do 6 (split; [reflexivity || assumption|]).
  intros Hnext Hopen. rewrite onAudioData_spec. project.
  rewrite Hw, Hnext, Hopen. project. repeat split.
Qed.

Lemma X4_failed_header_is_retried_witness :
  let this := constructor defaultOutputPath None in
  let r := onAudioData (frameOf 16 48000 65535 []) this in
  fst r = Throw (ERR_OUT_OF_RANGE "value")
  /\ fileDescriptor (snd r) = fileDescriptor this
  /\ outStream (snd r) = outStream this
  /\ totalDataBytes (snd r) = totalDataBytes this
  /\ headerWritten (snd r) = false
  /\ format (snd r) = (48000, 16, 65535)
  /\ (frame_ok F1 = true -> isOpen (fileDescriptor this) = true ->
      let r' := onAudioData F1 (snd r) in
      headerWritten (snd r') = true
      /\ format (snd r') = formatOf F1
      /\ onDisk (snd r')
         = store (wavLayout (channelCount F1) (sampleRate F1)
                    (bitsPerSample F1)) 0 (onDisk this)).
Proof.
  apply (X4_failed_header_is_retried (frameOf 16 48000 65535 []) F1
           (constructor defaultOutputPath None)); reflexivity.
Defined.

(** X5.  An [onAudioData] call that throws has done either none of its
    work or all of it.  Either it did not get past the header: the format
    fields hold the frame's format, [headerWritten] is still false, and the
    stream and the counter are untouched.  Or the header is written, the
    payload has been handed to the stream and counted, and the exception is
    the one the forwarding callback threw. *)
Theorem X5_ingest_throw_leaves_consistent_state data this e :
  fst (onAudioData data this) = Throw e ->
  let after := snd (onAudioData data this) in
  (headerWritten this = false
   /\ headerWritten after = false
   /\ format after = formatOf data
   /\ outStream after = outStream this
   /\ totalDataBytes after = totalDataBytes this)
  \/ (headerWritten after = true
      /\ forward data this = Throw e
      /\ outStream after
         = stream_write (payload data) (negb (isOpen (fileDescriptor this)))
             (outStream this)
      /\ totalDataBytes after
         = totalDataBytes this + Z.of_nat (length (payload data))).
Proof.
  rewrite onAudioData_spec. unfold format, formatOf.
  destruct (headerWritten this) eqn:Hw.
  - cbn [fst snd]. intros H. right. project. auto.
  - destruct (frame_ok data);
      [destruct (isOpen (fileDescriptor this)) eqn:Hopen|]; cbn [fst snd].
    + intros H. right. project. rewrite Hopen. auto.
    + intros _. left. project. auto.
    + intros _. left. project. auto.
Qed.

Lemma X5_ingest_throw_leaves_consistent_state_witness :
  let this := constructor defaultOutputPath (Some failingCallback) in
  let e := Thrown "forwarding failed" in
  let after := snd (onAudioData F1 this) in
  (headerWritten this = false
   /\ headerWritten after = false
   /\ format after = formatOf F1
   /\ outStream after = outStream this
   /\ totalDataBytes after = totalDataBytes this)
  \/ (headerWritten after = true
      /\ forward F1 this = Throw e
      /\ outStream after
         = stream_write (payload F1) (negb (isOpen (fileDescriptor this)))
             (outStream this)
      /\ totalDataBytes after
         = totalDataBytes this + Z.of_nat (length (payload F1))).
Proof.
  apply (X5_ingest_throw_leaves_consistent_state F1
           (constructor defaultOutputPath (Some failingCallback))
           (Thrown "forwarding failed")).
  reflexivity.
Defined.

(** X6.  In every reachable state, whatever its outcome, [cleanup] leaves the
    counter, the format, [headerWritten], the callback, the queue, the
    descriptor's offset and its open flag as they were, and it does not
    change the length of the file: the only bytes it can change are 4 to 7
    and 40 to 43. *)
Theorem X6_cleanup_touches_only_size_fields cb this :
  reachable cb this ->
  let after := snd (cleanup this) in
  headerWritten after = headerWritten this
  /\ totalDataBytes after = totalDataBytes this
  /\ format after = format this
  /\ onAudioCallback after = onAudioCallback this
  /\ pending (outStream after) = pending (outStream this)
  /\ position (fileDescriptor after) = position (fileDescriptor this)
  /\ isOpen (fileDescriptor after) = isOpen (fileDescriptor this)
  /\ length (onDisk after) = length (onDisk this)
  /\ slice 0 4 (onDisk after) = slice 0 4 (onDisk this)
  /\ slice 8 32 (onDisk after) = slice 8 32 (onDisk this)
  /\ skipn 44 (onDisk after) = skipn 44 (onDisk this).
Proof.
  intros Hreach after. unfold after, format.
  destruct (reachable_consistent cb this Hreach) as [_ Hyes].
  rewrite cleanup_spec.
  destruct (headerWritten this) eqn:Hw; cbn [andb];
    [|project; repeat split; auto].
  specialize (Hyes eq_refl).
  destruct (0 <? totalDataBytes this);
    [destruct (fitsU 4 (36 + totalDataBytes this));
     [destruct (isOpen (fileDescriptor this)) eqn:Hopen|]|];
    project; repeat split; auto.
  - rewrite !length_store, !length_le_bytes. lia.
  - rewrite slice_store_before
      by (rewrite ?length_store, ?length_le_bytes; lia).
    apply slice_store_before; lia.
  - rewrite slice_store_before
      by (rewrite ?length_store, ?length_le_bytes; lia).
    apply slice_store_after; rewrite length_le_bytes; lia.
  - rewrite skipn_store_after
      by (rewrite ?length_store, ?length_le_bytes; lia).
    apply skipn_store_after; rewrite length_le_bytes; lia.
Qed.

Lemma X6_cleanup_touches_only_size_fields_witness :
  let this := run [Ingest F1; Ingest (stereo48k (repeat x07 60)); IoComplete; IoComplete]
                (constructor defaultOutputPath None) in
  let after := snd (cleanup this) in
  headerWritten after = headerWritten this
  /\ totalDataBytes after = totalDataBytes this
  /\ format after = format this
  /\ onAudioCallback after = onAudioCallback this
  /\ pending (outStream after) = pending (outStream this)
  /\ position (fileDescriptor after) = position (fileDescriptor this)
  /\ isOpen (fileDescriptor after) = isOpen (fileDescriptor this)
  /\ length (onDisk after) = length (onDisk this)
  /\ slice 0 4 (onDisk after) = slice 0 4 (onDisk this)
  /\ slice 8 32 (onDisk after) = slice 8 32 (onDisk this)
  /\ skipn 44 (onDisk after) = skipn 44 (onDisk this).
Proof.
  apply (X6_cleanup_touches_only_size_fields None).
  apply reachable_run, reachable_new.
Defined.

(** X7.  No event ever shortens the file, and in every reachable state the
    file is either empty or at least as long as the 44-byte header. *)
Theorem X7_file_never_shrinks cb this e :
  reachable cb this ->
  (length (onDisk this) <= length (onDisk (snd (step e this))))%nat
  /\ (length (onDisk this) = 0%nat \/ (44 <= length (onDisk this))%nat).
Proof.
  intros Hreach. split.
  - apply within_step. now apply (reachable_within cb).
  - destruct (reachable_consistent cb this Hreach) as [Hno Hyes].
    destruct (headerWritten this).
    + right. now apply Hyes.
    + left. destruct (Hno eq_refl) as (-> & _). reflexivity.
Qed.

Lemma X7_file_never_shrinks_witness :
  let this := run [Ingest F1; IoComplete] (constructor defaultOutputPath None) in
  (length (onDisk this) <= length (onDisk (snd (step Finalize this))))%nat
  /\ (length (onDisk this) = 0%nat \/ (44 <= length (onDisk this))%nat).
Proof.
  apply (X7_file_never_shrinks None). apply reachable_run, reachable_new.
Defined.

(** X8.  On a writer that has its header and is still being fed, a frame
    with an empty payload changes neither the counter nor the format nor the
    file: what is on disk once the stream has drained is what would be there
    without the call. *)
Theorem X8_empty_frame_changes_nothing cb data this :
  reachable cb this ->
  headerWritten this = true ->
  isOpen (fileDescriptor this) = true ->
  ending (outStream this) = false ->
  payload data = [] ->
  let after := snd (onAudioData data this) in
  totalDataBytes after = totalDataBytes this
  /\ format after = format this
  /\ onDisk after = onDisk this
  /\ onDisk (settle after) = onDisk (settle this)
  /\ position (fileDescriptor (settle after))
     = position (fileDescriptor (settle this)).
Proof.
  intros Hreach Hw Hopen Hend Hempty after.
  assert (Hafter : after = queuePayload data this)
    by (unfold after; now rewrite onAudioData_spec, Hw).
  assert (Hq : pending (outStream after) = pending (outStream this) ++ [[]]).
  { rewrite Hafter. project. unfold stream_write. now rewrite Hend, Hempty. }
  assert (Hfd : fileDescriptor after = fileDescriptor this)
    by (rewrite Hafter; reflexivity).
  destruct (settle_open this Hopen) as (Hd & Hp & _).
  destruct (settle_open after) as (Hd' & Hp' & _); [now rewrite Hfd|].
  rewrite Hd', Hp', Hd, Hp, Hq, Hfd, writeAll_snoc, concat_app, length_app.
  rewrite Hafter. unfold format. project. rewrite Hempty. cbn [length concat app].
  repeat split; try lia.
  cbn [write contents length]. apply store_nothing.
  apply writeAll_within. now apply (reachable_within cb).
Qed.

Lemma X8_empty_frame_changes_nothing_witness :
  let this := run [Ingest F1] (constructor defaultOutputPath None) in
  let after := snd (onAudioData (stereo48k []) this) in
  totalDataBytes after = totalDataBytes this
  /\ format after = format this
  /\ onDisk after = onDisk this
  /\ onDisk (settle after) = onDisk (settle this)
  /\ position (fileDescriptor (settle after))
     = position (fileDescriptor (settle this)).
Proof.
  apply (X8_empty_frame_changes_nothing None (stereo48k [])
           (run [Ingest F1] (constructor defaultOutputPath None)));
    try reflexivity.
  apply reachable_run, reachable_new.
Defined.

(** ** The header *)

(** X9.  Whenever [writeWavHeaderPlaceholder] can build the header and a
    sample frame is a whole number of bytes (channels times bits per sample
    is a multiple of 8), the header is consistent: its ByteRate field is its
    SampleRate field times its BlockAlign field. *)
Theorem X9_byte_rate_is_rate_times_block_align channels rate bits header :
  wavHeader channels rate bits = Ok header ->
  (8 | channels * bits) ->
  field 4 28 header = field 4 24 header * field 2 32 header.
Proof.
  intros Hheader Hwhole. rewrite wavHeader_spec in Hheader.
  destruct (header_ok channels rate bits) eqn:Hok; [|discriminate].
  injection Hheader as <-.
  destruct (wavLayout_fields channels rate bits Hok)
    as (_ & _ & _ & _ & _ & _ & _ & _ & -> & -> & -> & _).
  rewrite <- Z.mul_assoc. apply Z.divide_div_mul_exact; [discriminate | assumption].
Qed.

Lemma X9_byte_rate_is_rate_times_block_align_witness :
  field 4 28 (wavLayout 2 48000 16)
  = field 4 24 (wavLayout 2 48000 16) * field 2 32 (wavLayout 2 48000 16).
Proof.
  apply (X9_byte_rate_is_rate_times_block_align 2 48000 16).
  - reflexivity.
  - exists 4. reflexivity.
Defined.

(** ** Finalizing *)



(** ** Framing *)

(** X11.  How the samples are cut into frames, and when the stream gets to
    write them, does not matter: two writers whose first frames carry the
    same format (one the header can hold) and that have been fed the same
    bytes overall hold the same file, the same counter and the same format
    once their streams have written everything. *)
Theorem X11_framing_does_not_matter path cb first1 t1 first2 t2 :
  frame_ok first1 = true ->
  formatOf first2 = formatOf first1 ->
  forallb feeding t1 = true ->
  forallb feeding t2 = true ->
  let this1 := run (Ingest first1 :: t1) (constructor path cb) in
  let this2 := run (Ingest first2 :: t2) (constructor path cb) in
  pending (outStream this1) = [] ->
  pending (outStream this2) = [] ->
  concat (map payload (first1 :: ingested t1))
  = concat (map payload (first2 :: ingested t2)) ->
  onDisk this1 = onDisk this2
  /\ totalDataBytes this1 = totalDataBytes this2
  /\ format this1 = format this2.
Proof.
  intros Hok1 Hformat Hfeed1 Hfeed2 this1 this2 Hidle1 Hidle2 Hsame.
  assert (Hfields : channelCount first2 = channelCount first1
                    /\ sampleRate first2 = sampleRate first1
                    /\ bitsPerSample first2 = bitsPerSample first1)
    by (unfold formatOf in Hformat; injection Hformat; auto).
  destruct Hfields as (Hc & Hr & Hb).
  assert (Hok2 : frame_ok first2 = true)
    by (unfold frame_ok; now rewrite Hc, Hr, Hb).
  destruct (first_then_fed path cb first1 t1 Hok1 Hfeed1) as (Ht1 & Hf1).
  destruct (first_then_fed path cb first2 t2 Hok2 Hfeed2) as (Ht2 & Hf2).
  destruct (drained_file path cb first1 t1 Hok1 Hfeed1 Hidle1) as (Hd1 & _).
  destruct (drained_file path cb first2 t2 Hok2 Hfeed2 Hidle2) as (Hd2 & _).
  fold this1 in Ht1, Hf1, Hd1. fold this2 in Ht2, Hf2, Hd2.
  rewrite Hd1, Hd2, Ht1, Ht2, Hf1, Hf2, Hformat, Hsame, Hc, Hr, Hb. auto.
Qed.

Lemma X11_framing_does_not_matter_witness :
  let this1 := run [Ingest F1; Ingest F2; IoComplete; IoComplete]
                 (constructor defaultOutputPath None) in
  let this2 := run [Ingest (stereo48k (payload F1 ++ payload F2)); IoComplete]
                 (constructor defaultOutputPath None) in
  onDisk this1 = onDisk this2
  /\ totalDataBytes this1 = totalDataBytes this2
  /\ format this1 = format this2.
Proof.
  apply (X11_framing_does_not_matter defaultOutputPath None
           F1 [Ingest F2; IoComplete; IoComplete]
           (stereo48k (payload F1 ++ payload F2)) [IoComplete]);
    reflexivity.
Defined.
